(** * Smart surveillance: the alert ledger, the session recorder and the
      detection loop of [app.py]

    A shallow embedding of the Flask application in [src/app.py].  The module
    globals of the script become one record [State]; every function of the
    script that touches them becomes a computation in a small state-and-error
    monad [M].  The collaborators the script treats as black boxes (camera,
    YOLO model, geocoder, wall clock, file system, video writer) are modelled
    by an environment [Env] of answers together with explicit logs of the
    effects the script performs on them.

    Conventions.
    - Python floats are modelled by the rational numbers they denote ([Q]);
      a float literal of the script stands for the double it is read as
      (so [0.35] is 3152519739159347 / 2^53, a little below 35/100), and
      comparisons are those of the values.
    - Console output ([print]) and [time.sleep] are not modelled.
    - [add_alert] runs under [alerts_lock]; every request handler and every
      loop iteration of the detection thread is one atomic step of the
      system, and steps of different threads interleave arbitrarily. *)

From Stdlib Require Import QArith ZArith String Ascii List Lia.
From stdpp Require Import gmap strings list pretty.
Import ListNotations.

Open Scope string_scope.

(** ** Strings: the fragments of [str] the script relies on *)

Module Str.

(** [c.lower()] on one character (ASCII letters; other characters are
    kept, as for every label of the model's class table). *)
Definition lower_ascii (c : ascii) : ascii :=
  let n := nat_of_ascii c in
  if ((65 <=? n) && (n <=? 90))%nat then ascii_of_nat (n + 32) else c.

(** [s.lower()] *)
Fixpoint lower (s : string) : string :=
  match s with
  | EmptyString => EmptyString
  | String c rest => String (lower_ascii c) (lower rest)
  end.

(** [s.startswith(p)] *)
Fixpoint starts_with (p s : string) : bool :=
  match p, s with
  | EmptyString, _ => true
  | String a p', String b s' => if Ascii.eqb a b then starts_with p' s' else false
  | String _ _, EmptyString => false
  end.

(** [sub in s] *)
Fixpoint contains (sub s : string) : bool :=
  starts_with sub s ||
  match s with
  | EmptyString => false
  | String _ s' => contains sub s'
  end.

(** Left padding with zeros, as [%02d] and [%04d] do. *)
Fixpoint zeros (n : nat) : string :=
  match n with
  | O => EmptyString
  | S k => String "0" (zeros k)
  end.

Definition pad (width : nat) (s : string) : string :=
  zeros (width - String.length s) ++ s.

Definition digits (width n : nat) : string := pad width (pretty n).

(** Rounding of a non-negative rational to the nearest integer, ties to
    the even neighbour: the rounding of [format(x, '.Nf')]. *)
Definition round_half_even (num den : Z) : Z :=
  let q := (num / den)%Z in
  let r := (num mod den)%Z in
  match (2 * r ?= den)%Z with
  | Lt => q
  | Gt => (q + 1)%Z
  | Eq => if Z.even q then q else (q + 1)%Z
  end.

(** [f"{x:.{d}f}"] *)
Definition fixed (d : nat) (x : Q) : string :=
  let scale := (10 ^ Z.of_nat d)%Z in
  let m := round_half_even (Z.abs (Qnum x) * scale) (Zpos (Qden x)) in
  let sign := if (Qnum x <? 0)%Z then "-" else "" in
  let int_part := pretty (m / scale)%Z in
  match d with
  | O => sign ++ int_part
  | _ => sign ++ int_part ++ "." ++ digits d (Z.to_nat (m mod scale))
  end.

End Str.

(** ** Wall clock *)

Record DateTime := {
  dt_year : nat; dt_month : nat; dt_day : nat;
  dt_hour : nat; dt_minute : nat; dt_second : nat
}.

(** [strftime("%Y-%m-%d %H:%M:%S")] *)
Definition strftime_alert (t : DateTime) : string :=
  Str.digits 4 (dt_year t) ++ "-" ++ Str.digits 2 (dt_month t) ++ "-" ++
  Str.digits 2 (dt_day t) ++ " " ++ Str.digits 2 (dt_hour t) ++ ":" ++
  Str.digits 2 (dt_minute t) ++ ":" ++ Str.digits 2 (dt_second t).

(** [strftime("%Y%m%d_%H%M%S")] *)
Definition strftime_file (t : DateTime) : string :=
  Str.digits 4 (dt_year t) ++ Str.digits 2 (dt_month t) ++
  Str.digits 2 (dt_day t) ++ "_" ++ Str.digits 2 (dt_hour t) ++
  Str.digits 2 (dt_minute t) ++ Str.digits 2 (dt_second t).

(** ** Data model *)

(** The dictionary built by [add_alert]; its keys are fixed, so it is a
    record.  [alert_keys] is the key order of the dictionary literal. *)
Record Alert := {
  alert_id : Z;
  alert_time : string;
  alert_msg : string;
  alert_type : string
}.

Definition alert_keys : list string := ["id"; "time"; "msg"; "type"].

(** What [csv.DictWriter] is asked to write: the header row followed by one
    row of cells per dictionary (before quoting). *)
Definition Csv := list (list string).

Definition csv_row (a : Alert) : list string :=
  [pretty (alert_id a); alert_time a; alert_msg a; alert_type a].

(** [DictWriter(f, fieldnames=log[0].keys()); writeheader(); writerows(log)] *)
Definition csv_of (log : list Alert) : Csv := alert_keys :: map csv_row log.

(** Drawing primitives of [cv2] applied to a frame, newest last. *)
Inductive Overlay :=
| Rect (x1 y1 x2 y2 : Z) (colour : Z * Z * Z) (thickness : Z)
| Text (s : string) (x y : Z) (colour : Z * Z * Z).

Record Image := {
  pixels : nat;               (* the captured picture, opaque *)
  overlays : list Overlay     (* what has been drawn on it *)
}.

Definition draw (o : Overlay) (f : Image) : Image :=
  {| pixels := pixels f; overlays := overlays f ++ [o] |}.

(** One contour of [cv2.findContours]: its area and its bounding rectangle. *)
Record Contour := { contour_area : Q; contour_rect : Z * Z * Z * Z }.

(** One successful [cap.read()] together with what the black boxes answer
    on that frame.  The frame [f] is drawn on in place, so the contour
    search and [r.plot()] are given the frame as it is when they run. *)
Record Capture := {
  cap_raw : Image;                        (* f, as read *)
  cap_boxes : option (list (Z * Q));      (* r.boxes as (cls, conf); None if absent *)
  cap_plot : Image -> option Image;       (* r.plot(); None when it raises *)
  cap_contours : Image -> list Contour    (* contours of the HSV mask of f *)
}.

(** [cv2.VideoCapture(0, cv2.CAP_DSHOW)] once opened. *)
Record Camera := {
  cam_width : Z;
  cam_height : Z;
  cam_frames : list Capture    (* frames read before read() fails *)
}.

(** What [geocoder.ip('me')] does. *)
Inductive GeoOutcome :=
| GeoRaise                      (* the call raises *)
| GeoNotOk                      (* g.ok is false *)
| GeoOk (lat lon : Q).          (* g.ok, g.latlng = [lat, lon] *)

(** The environment: the answers of the collaborators, indexed by the
    number of earlier calls. *)
Record Env := {
  now_at : nat -> DateTime;            (* datetime.datetime.now() *)
  geo_at : nat -> GeoOutcome;          (* geocoder.ip('me') *)
  camera_at : nat -> option Camera;    (* None: cap.isOpened() is false *)
  names : gmap Z string;               (* model.names *)
  os_sep : string                      (* os.sep *)
}.

(** A [cv2.VideoWriter] object. *)
Record Sink := {
  sink_path : string;
  sink_size : Z * Z;
  sink_frames : list Image;   (* frames written so far *)
  sink_open : bool            (* false after release() *)
}.

(** A background thread running [camera_detection]. *)
Inductive Thread :=
| Spawned                          (* started, body not entered yet *)
| Looping (cap : list Capture)     (* at the head of the while loop *)
| Finished                         (* returned *)
| Crashed (exn : string).          (* died of an uncaught exception *)

(** The module globals of [app.py] followed by the state of the world the
    script acts on. *)
Record State := {
  (* globals *)
  alerts_log : list Alert;
  _next_alert_id : Z;
  camera_running : bool;
  frame : option Image;
  video_writer : option nat;        (* index into [sinks] *)
  session_folder : option string;
  all_sessions : list string;
  (* world *)
  threads : list Thread;            (* threading.Thread(...).start() *)
  sinks : list Sink;                (* every VideoWriter created *)
  dirs : gset string;               (* directories that exist *)
  csv_writes : list (string * Csv); (* files written by save_alerts_csv *)
  beeps : nat;                      (* playsound threads started *)
  clock_reads : nat;
  geo_calls : nat;
  cam_opens : nat
}.

Definition init : State := {|
  alerts_log := [];
  _next_alert_id := 1;
  camera_running := false;
  frame := None;
  video_writer := None;
  session_folder := None;
  all_sessions := [];
  threads := [];
  sinks := [];
  dirs := ∅;
  csv_writes := [];
  beeps := 0;
  clock_reads := 0;
  geo_calls := 0;
  cam_opens := 0
|}.

(** Field updates ([global x; x = v]). *)

Definition set_alerts_log (v : list Alert) (s : State) : State :=
  Build_State v (_next_alert_id s) (camera_running s) (frame s) (video_writer
    s) (session_folder s) (all_sessions s) (threads s) (sinks s) (dirs s)
    (csv_writes s) (beeps s) (clock_reads s) (geo_calls s) (cam_opens s).

Definition set_next_alert_id (v : Z) (s : State) : State :=
  Build_State (alerts_log s) v (camera_running s) (frame s) (video_writer s)
    (session_folder s) (all_sessions s) (threads s) (sinks s) (dirs s)
    (csv_writes s) (beeps s) (clock_reads s) (geo_calls s) (cam_opens s).

Definition set_camera_running (v : bool) (s : State) : State :=
  Build_State (alerts_log s) (_next_alert_id s) v (frame s) (video_writer s)
    (session_folder s) (all_sessions s) (threads s) (sinks s) (dirs s)
    (csv_writes s) (beeps s) (clock_reads s) (geo_calls s) (cam_opens s).

Definition set_frame (v : option Image) (s : State) : State :=
  Build_State (alerts_log s) (_next_alert_id s) (camera_running s) v
    (video_writer s) (session_folder s) (all_sessions s) (threads s) (sinks s)
    (dirs s) (csv_writes s) (beeps s) (clock_reads s) (geo_calls s) (cam_opens
    s).

Definition set_video_writer (v : option nat) (s : State) : State :=
  Build_State (alerts_log s) (_next_alert_id s) (camera_running s) (frame s) v
    (session_folder s) (all_sessions s) (threads s) (sinks s) (dirs s)
    (csv_writes s) (beeps s) (clock_reads s) (geo_calls s) (cam_opens s).

Definition set_session_folder (v : option string) (s : State) : State :=
  Build_State (alerts_log s) (_next_alert_id s) (camera_running s) (frame s)
    (video_writer s) v (all_sessions s) (threads s) (sinks s) (dirs s)
    (csv_writes s) (beeps s) (clock_reads s) (geo_calls s) (cam_opens s).

Definition set_all_sessions (v : list string) (s : State) : State :=
  Build_State (alerts_log s) (_next_alert_id s) (camera_running s) (frame s)
    (video_writer s) (session_folder s) v (threads s) (sinks s) (dirs s)
    (csv_writes s) (beeps s) (clock_reads s) (geo_calls s) (cam_opens s).

Definition set_threads (v : list Thread) (s : State) : State :=
  Build_State (alerts_log s) (_next_alert_id s) (camera_running s) (frame s)
    (video_writer s) (session_folder s) (all_sessions s) v (sinks s) (dirs s)
    (csv_writes s) (beeps s) (clock_reads s) (geo_calls s) (cam_opens s).

Definition set_sinks (v : list Sink) (s : State) : State :=
  Build_State (alerts_log s) (_next_alert_id s) (camera_running s) (frame s)
    (video_writer s) (session_folder s) (all_sessions s) (threads s) v (dirs
    s) (csv_writes s) (beeps s) (clock_reads s) (geo_calls s) (cam_opens s).

Definition set_dirs (v : gset string) (s : State) : State :=
  Build_State (alerts_log s) (_next_alert_id s) (camera_running s) (frame s)
    (video_writer s) (session_folder s) (all_sessions s) (threads s) (sinks s)
    v (csv_writes s) (beeps s) (clock_reads s) (geo_calls s) (cam_opens s).

Definition set_csv_writes (v : list (string * Csv)) (s : State) : State :=
  Build_State (alerts_log s) (_next_alert_id s) (camera_running s) (frame s)
    (video_writer s) (session_folder s) (all_sessions s) (threads s) (sinks s)
    (dirs s) v (beeps s) (clock_reads s) (geo_calls s) (cam_opens s).

Definition set_beeps (v : nat) (s : State) : State :=
  Build_State (alerts_log s) (_next_alert_id s) (camera_running s) (frame s)
    (video_writer s) (session_folder s) (all_sessions s) (threads s) (sinks s)
    (dirs s) (csv_writes s) v (clock_reads s) (geo_calls s) (cam_opens s).

Definition set_clock_reads (v : nat) (s : State) : State :=
  Build_State (alerts_log s) (_next_alert_id s) (camera_running s) (frame s)
    (video_writer s) (session_folder s) (all_sessions s) (threads s) (sinks s)
    (dirs s) (csv_writes s) (beeps s) v (geo_calls s) (cam_opens s).

Definition set_geo_calls (v : nat) (s : State) : State :=
  Build_State (alerts_log s) (_next_alert_id s) (camera_running s) (frame s)
    (video_writer s) (session_folder s) (all_sessions s) (threads s) (sinks s)
    (dirs s) (csv_writes s) (beeps s) (clock_reads s) v (cam_opens s).

Definition set_cam_opens (v : nat) (s : State) : State :=
  Build_State (alerts_log s) (_next_alert_id s) (camera_running s) (frame s)
    (video_writer s) (session_folder s) (all_sessions s) (threads s) (sinks s)
    (dirs s) (csv_writes s) (beeps s) (clock_reads s) (geo_calls s) v.

(** ** The state-and-error monad of the script *)

(** A computation ends with a value or with an uncaught exception; in both
    cases the assignments made so far stay. *)
Inductive Result (A : Type) :=
| Ok (a : A) (s : State)
| Raised (exn : string) (s : State).
Arguments Ok {A} a s.
Arguments Raised {A} exn s.

Definition M (A : Type) : Type := State -> Result A.

Definition final {A} (r : Result A) : State :=
  match r with Ok _ s => s | Raised _ s => s end.

Definition value {A} (r : Result A) : option A :=
  match r with Ok a _ => Some a | Raised _ _ => None end.

#[global] Instance M_ret : MRet M := fun A a s => Ok a s.

#[global] Instance M_bind : MBind M := fun A B f m s =>
  match m s with
  | Ok a s' => f a s'
  | Raised e s' => Raised e s'
  end.

Definition get : M State := fun s => Ok s s.
Definition modify (f : State -> State) : M unit := fun s => Ok tt (f s).
Definition raise {A} (exn : string) : M A := fun s => Raised exn s.

(** [for x in l: f = body(f, x)] *)
Fixpoint foldM {A B} (body : B -> A -> M B) (l : list A) (b : B) : M B :=
  match l with
  | [] => mret b
  | x :: rest => b' ← body b x; foldM body rest b'
  end.

Section Program.

Variable env : Env.

(** *** Collaborators *)

(** [datetime.datetime.now()] *)
Definition now : M DateTime :=
  s ← get;
  modify (set_clock_reads (S (clock_reads s)));;
  mret (now_at env (clock_reads s)).

(** [geocoder.ip('me')] *)
Definition geocoder_ip : M GeoOutcome :=
  s ← get;
  modify (set_geo_calls (S (geo_calls s)));;
  mret (geo_at env (geo_calls s)).

(** [threading.Thread(target=lambda: playsound(...), daemon=True).start()] *)
Definition beep : M unit :=
  modify (fun s => set_beeps (S (beeps s)) s).

(** [os.path.join(a, b)] for relative components *)
Definition path_join (a b : string) : string := a ++ os_sep env ++ b.

(** [os.makedirs(p)]; intermediate directories are not tracked. *)
Definition makedirs (p : string) : M unit :=
  modify (fun s => set_dirs (dirs s ∪ {[ p ]}) s).

(** *** Helpers of [app.py] *)

(** [add_alert(msg, alert_type)]: the body of the [with alerts_lock]
    block, then [return alert]. *)
Definition add_alert (msg alert_type : string) : M Alert :=
  t ← now;
  s ← get;
  let alert := {| alert_id := _next_alert_id s;
                  alert_time := strftime_alert t;
                  alert_msg := msg;
                  alert_type := alert_type |} in
  modify (set_alerts_log (alerts_log s ++ [alert]));;
  modify (set_next_alert_id (_next_alert_id s + 1));;
  mret alert.

(** [cv2.VideoWriter(path, fourcc, fps, size)] *)
Definition VideoWriter (path : string) (size : Z * Z) : M nat :=
  s ← get;
  modify (set_sinks (sinks s ++ [{| sink_path := path; sink_size := size;
                                    sink_frames := []; sink_open := true |}]));;
  mret (length (sinks s)).

Definition sink_write (img : Image) (k : Sink) : Sink :=
  if sink_open k
  then {| sink_path := sink_path k; sink_size := sink_size k;
          sink_frames := sink_frames k ++ [img]; sink_open := true |}
  else k.

Definition sink_release (k : Sink) : Sink :=
  {| sink_path := sink_path k; sink_size := sink_size k;
     sink_frames := sink_frames k; sink_open := false |}.

(** [writer.write(img)]; a released writer drops the frame. *)
Definition writer_write (h : nat) (img : Image) : M unit :=
  modify (fun s => set_sinks (alter (sink_write img) h (sinks s)) s).

(** [writer.release()] *)
Definition writer_release (h : nat) : M unit :=
  modify (fun s => set_sinks (alter sink_release h (sinks s)) s).

(** *** Constants *)

Definition ALERT_CLASSES : gset string :=
  {[ "knife"; "gun"; "pistol"; "rifle"; "firearm"; "fire"; "flame"; "smoke" ]}.

(** [CONF_THRESH = 0.35]: the double nearest to 35/100, which is
    3152519739159347 / 2^53 = 35/100 - 1/(5 * 2^53). *)
Definition CONF_THRESH : Q := 3152519739159347 # 9007199254740992.

(** [x < y] on floats *)
Definition Qltb (x y : Q) : bool :=
  (Qnum x * QDen y <? Qnum y * QDen x)%Z.

(** *** [detect_small_fire] *)

(** The loop over the contours: every contour of area above 30 gets its
    bounding rectangle drawn on the frame and sets [detected]. *)
Fixpoint mark_contours (contours : list Contour) (f : Image) (detected : bool)
  : bool * Image :=
  match contours with
  | [] => (detected, f)
  | cnt :: rest =>
      if Qltb 30 (contour_area cnt)
      then let '(x, y, w, h) := contour_rect cnt in
           mark_contours rest
             (draw (Rect x y (x + w) (y + h) (0, 140, 255)%Z 2) f) true
      else mark_contours rest f detected
  end.

Definition detect_small_fire (c : Capture) (f : Image) : bool * Image :=
  mark_contours (cap_contours c f) f false.

(** *** [get_gps_location] *)

Definition get_gps_location : M (Q * Q) :=
  g ← geocoder_ip;
  match g with
  | GeoOk lat lon => mret (lat, lon)
  | GeoNotOk => mret (0, 0)%Q
  | GeoRaise => mret (0, 0)%Q          (* except Exception *)
  end.

(** [gps != [0.0, 0.0]] *)
Definition gps_differs (gps : Q * Q) : bool :=
  negb (Qeq_bool (fst gps) 0 && Qeq_bool (snd gps) 0).

(** *** [save_alerts_csv] *)

(** The [with open(filename, 'w') as f] block: header and one row per
    entry of [alerts_log]. *)
Definition write_csv (filename : string) : M unit :=
  modify (fun s =>
    set_csv_writes (csv_writes s ++ [(filename, csv_of (alerts_log s))]) s).

Definition save_alerts_csv : M unit :=
  s ← get;
  match alerts_log s with
  | [] => mret tt
  | _ :: _ =>
      match session_folder s with
      | None => raise "TypeError"       (* os.path.exists(None) *)
      | Some folder =>
          (if bool_decide (folder ∈ dirs s) then mret tt else makedirs folder);;
          t ← now;
          let filename :=
            path_join folder ("alerts_" ++ strftime_file t ++ ".csv") in
          write_csv filename
      end
  end.

(** *** [camera_detection] *)

(** The position lookup that follows an alert (the same lines after a
    model detection and after a colour detection): when the answer is not
    [[0.0, 0.0]], draw it on the frame and record it. *)
Definition gps_annotate (f : Image) : M Image :=
  gps ← get_gps_location;
  if gps_differs gps then
    let '(lat, lon) := gps in
    let f1 := draw (Rect 20 20 280 90 (0, 255, 255)%Z 2) f in
    let f2 := draw (Text ("GPS: " ++ Str.fixed 4 lat ++ "," ++ Str.fixed 4 lon)
                      30 65 (0, 255, 255)%Z) f1 in
    add_alert ("GPS Location: " ++ Str.fixed 4 lat ++ ", " ++ Str.fixed 4 lon)
      "info";;
    mret f2
  else mret f.

(** [str(names.get(cls_id, cls_id)).lower()] *)
Definition class_name (cls_id : Z) : string :=
  Str.lower (default (pretty cls_id) (names env !! cls_id)).

(** ["fire" if "fire" in name or "flame" in name else "weapon"] *)
Definition alert_type_of (name : string) : string :=
  if Str.contains "fire" name || Str.contains "flame" name
  then "fire" else "weapon".

(** The body of [for cls_id, conf in zip(cls_ids, confs)]. *)
Definition on_detection (f : Image) (det : Z * Q) : M Image :=
  let '(cls_id, conf) := det in
  if Qltb conf CONF_THRESH then mret f                    (* continue *)
  else
    let name := class_name cls_id in
    if bool_decide (name ∈ ALERT_CLASSES) then
      add_alert (name ++ " detected (conf " ++ Str.fixed 2 conf ++ ")")
        (alert_type_of name);;
      beep;;
      gps_annotate f
    else mret f.

(** One pass of the loop body from [model(f)] to the choice of the frame
    to show: the value is the annotated frame. *)
Definition annotate (c : Capture) : M Image :=
  f ← match cap_boxes c with
      | Some boxes => foldM on_detection boxes (cap_raw c)
      | None => mret (cap_raw c)
      end;
  let '(detected, f) := detect_small_fire c f in
  f ← (if detected
       then add_alert "Small flame/matchstick detected" "fire";;
            beep;;
            gps_annotate f
       else mret f);
  mret (match cap_plot c f with
        | Some img => img
        | None => f                                       (* f.copy() *)
        end).

(** The loop body after a successful [cap.read()]. *)
Definition loop_body (c : Capture) : M unit :=
  img ← annotate c;
  modify (set_frame (Some img));;
  s ← get;
  match video_writer s with
  | Some h => writer_write h img
  | None => mret tt
  end.

(** The lines after the loop. *)
Definition after_loop : M unit :=
  s ← get;
  match video_writer s with
  | Some h => writer_release h
  | None => mret tt
  end;;
  modify (set_camera_running false);;
  save_alerts_csv.

(** From the entry of [camera_detection] to the head of the loop. *)
Definition camera_open : M Thread :=
  s ← get;
  modify (set_cam_opens (S (cam_opens s)));;
  match camera_at env (cam_opens s) with
  | None =>
      add_alert "Camera failed to open" "info";;
      modify (set_camera_running false);;
      mret Finished
  | Some cam =>
      t ← now;
      let folder := path_join "sessions" (strftime_file t) in
      modify (set_session_folder (Some folder));;
      makedirs folder;;
      modify (fun s => set_all_sessions (all_sessions s ++ [folder]) s);;
      h ← VideoWriter (path_join folder "recorded_video.mp4")
            (cam_width cam, cam_height cam);
      modify (set_video_writer (Some h));;
      mret (Looping (cam_frames cam))
  end.

(** One test of [while camera_running] and what follows it. *)
Definition camera_turn (cap : list Capture) : M Thread :=
  s ← get;
  if camera_running s then
    match cap with
    | [] =>                                               (* not ret *)
        add_alert "Frame read failed" "info";;
        after_loop;;
        mret Finished
    | c :: rest => loop_body c;; mret (Looping rest)
    end
  else after_loop;; mret Finished.

Definition camera_detection (t : Thread) : M Thread :=
  match t with
  | Spawned => camera_open
  | Looping cap => camera_turn cap
  | Finished => mret Finished
  | Crashed exn => mret (Crashed exn)
  end.

(** *** Routes *)

Inductive Response :=
| Plain (body : string) (status : Z)
| Json (alerts : list Alert)
| CsvAttachment (download_name : string) (content : Csv)
| Mp4Attachment (download_name path : string)
| Page (sessions : list string)
| Jpeg (img : Image)
| Nothing.

(** One round of the loop of [generate_frames]: nothing is yielded while
    [frame] is [None]. *)
Definition generate_frames : M Response :=
  s ← get;
  match frame s with
  | None => mret Nothing                                  (* continue *)
  | Some img => mret (Jpeg img)
  end.

Definition home : M Response :=
  s ← get; mret (Page (all_sessions s)).

Definition get_alerts : M Response :=
  s ← get; mret (Json (alerts_log s)).

Definition start_camera : M Response :=
  s ← get;
  if camera_running s then mret (Plain "Camera already running" 200)
  else
    modify (set_camera_running true);;
    modify (fun s => set_threads (threads s ++ [Spawned]) s);;
    mret (Plain "Camera started" 200).

Definition stop_camera : M Response :=
  s ← get;
  if camera_running s then
    modify (set_camera_running false);;
    mret (Plain "Camera stopping" 200)
  else mret (Plain "Camera not running" 200).

Definition download_alerts : M Response :=
  s ← get;
  match alerts_log s with
  | [] => mret (Plain "No alerts to download" 404)
  | _ :: _ =>
      t ← now;
      mret (CsvAttachment ("alerts_" ++ strftime_file t ++ ".csv")
              (csv_of (alerts_log s)))
  end.

(** [os.path.exists(video_path)], taken to hold once a writer was created
    on the file: a writer that fails to open and files removed from
    outside are not modelled. *)
Definition video_exists (path : string) (s : State) : bool :=
  existsb (fun k => String.eqb (sink_path k) path) (sinks s).

Definition download_video : M Response :=
  s ← get;
  match session_folder s with
  | None => mret (Plain "No video recorded yet" 404)
  | Some folder =>
      let video_path := path_join folder "recorded_video.mp4" in
      if video_exists video_path s then
        t ← now;
        mret (Mp4Attachment ("detection_" ++ strftime_file t ++ ".mp4")
                video_path)
      else mret (Plain "Video not found" 404)
  end.

(** The [__main__] block before [app.run]. *)
Definition main : M Response :=
  add_alert "Smart Surveillance started" "info";;
  makedirs "sessions";;
  mret Nothing.

(** *** The running system *)

(** What can happen next: a request is served, some caller records an
    alert, or the scheduler lets a detection thread take one turn. *)
Inductive Action :=
| Run_main
| Get_home
| Get_video_feed
| Get_alerts
| Get_start_camera
| Get_stop_camera
| Get_download_alerts
| Get_download_video
| Call_add_alert (msg alert_type : string)
| Thread_turn (tid : nat).

(** A turn of thread [tid]: [camera_detection] from its entry to the head
    of the loop, or one test of the loop condition with the pass or the
    exit that follows.  Nothing interleaves inside a turn, so the states
    between the assignments of lines 106-110 are not states of the model.
    An uncaught exception ends the thread only. *)
Definition thread_turn (tid : nat) : M Response := fun s =>
  match threads s !! tid with
  | None => Ok Nothing s
  | Some t =>
      match camera_detection t s with
      | Ok t' s' => Ok Nothing (set_threads (<[tid := t']> (threads s')) s')
      | Raised exn s' =>
          Ok Nothing (set_threads (<[tid := Crashed exn]> (threads s')) s')
      end
  end.

Definition perform (a : Action) : M Response :=
  match a with
  | Run_main => main
  | Get_home => home
  | Get_video_feed => generate_frames
  | Get_alerts => get_alerts
  | Get_start_camera => start_camera
  | Get_stop_camera => stop_camera
  | Get_download_alerts => download_alerts
  | Get_download_video => download_video
  | Call_add_alert msg alert_type => add_alert msg alert_type;; mret Nothing
  | Thread_turn tid => thread_turn tid
  end.

Definition step (s : State) (a : Action) : State := final (perform a s).

(** The state after a schedule of actions. *)
Definition run (s : State) (schedule : list Action) : State :=
  fold_left step schedule s.

(** The frame an action produces, if it is a loop pass of a running
    detection thread: the value of [annotate] on the frame just read. *)
Definition produced (s : State) (a : Action) : option Image :=
  match a with
  | Thread_turn tid =>
      match threads s !! tid with
      | Some (Looping (c :: _)) =>
          if camera_running s then value (annotate c s) else None
      | _ => None
      end
  | _ => None
  end.

(** The most recently produced frame along a schedule, [last] when none
    is produced. *)
Fixpoint latest_produced (s : State) (schedule : list Action)
  (last : option Image) : option Image :=
  match schedule with
  | [] => last
  | a :: rest =>
      latest_produced (step s a) rest
        (match produced s a with Some img => Some img | None => last end)
  end.

End Program.

(** ** A concrete environment to run the model on *)

Module Demo.

(** The clock advances one second per reading. *)
Definition clock (k : nat) : DateTime :=
  {| dt_year := 2024; dt_month := 3; dt_day := 9;
     dt_hour := 12; dt_minute := k / 60; dt_second := k mod 60 |}.

Definition coco : gmap Z string :=
  {[ 0%Z := "person"; 43%Z := "Knife"; 76%Z := "scissors"; 80%Z := "smoke";
     81%Z := "firearm"; 82%Z := "flame" ]}.

Definition blank (n : nat) : Image := {| pixels := n; overlays := [] |}.

Definition boxed (f : Image) : Image :=
  draw (Text "boxes" 0 0 (255, 0, 0)%Z) f.

(** A frame on which neither detector sees anything. *)
Definition quiet (n : nat) : Capture :=
  {| cap_raw := blank n; cap_boxes := Some [];
     cap_plot := fun f => Some (boxed f); cap_contours := fun _ => [] |}.

(** A frame with the given model detections and no flame-coloured region. *)
Definition seen (n : nat) (boxes : list (Z * Q)) : Capture :=
  {| cap_raw := blank n; cap_boxes := Some boxes;
     cap_plot := fun f => Some (boxed f); cap_contours := fun _ => [] |}.

Definition webcam (frames : list Capture) : Camera :=
  {| cam_width := 640; cam_height := 480; cam_frames := frames |}.

(** A camera that delivers three quiet frames; no position service. *)
Definition env3 : Env :=
  {| now_at := clock; geo_at := fun _ => GeoNotOk;
     camera_at := fun _ => Some (webcam [quiet 1; quiet 2; quiet 3]);
     names := coco; os_sep := "/" |}.

(** The [k]-th opening of the camera delivers the single quiet frame
    number [k + 1]. *)
Definition env_sessions : Env :=
  {| now_at := clock; geo_at := fun _ => GeoNotOk;
     camera_at := fun k => Some (webcam [quiet (S k)]);
     names := coco; os_sep := "/" |}.

(** No camera at all. *)
Definition env_nocam : Env :=
  {| now_at := clock; geo_at := fun _ => GeoNotOk;
     camera_at := fun _ => None; names := coco; os_sep := "/" |}.

(** A camera whose first frame shows a knife; the position service
    answers with [pos]. *)
Definition env_knife (pos : GeoOutcome) : Env :=
  {| now_at := clock; geo_at := fun _ => pos;
     camera_at := fun _ => Some (webcam [seen 1 [(43%Z, 0.9%Q)]; quiet 2]);
     names := coco; os_sep := "/" |}.

End Demo.

(** ** Vocabulary of the statements *)

(** [keeps R m]: from any state, [m] ends (normally or not) in a state
    related to the one it started from. *)
Definition keeps (R : State -> State -> Prop) {A} (m : M A) : Prop :=
  forall s, R s (final (m s)).

(** The event at position [i] of the ledger carries the identifier [i + 1],
    and the counter is one past the last identifier. *)
Definition numbered (s : State) : Prop :=
  (forall i a, alerts_log s !! i = Some a -> alert_id a = (Z.of_nat i + 1)%Z) /\
  _next_alert_id s = (Z.of_nat (length (alerts_log s)) + 1)%Z.

(** From [s] to [s'] the ledger has only grown, and every file written in
    between holds a ledger that extends the one of [s]. *)
Definition exports (s s' : State) : Prop :=
  alerts_log s `prefix_of` alerts_log s' /\
  exists files,
    csv_writes s' = (csv_writes s ++ files)%list /\
    Forall (fun pc : string * Csv =>
              exists log, pc.2 = csv_of log /\
                          alerts_log s `prefix_of` log /\
                          log `prefix_of` alerts_log s') files.

(** The frame with the position drawn on it and the alert that reports it. *)
Definition gps_drawn (lat lon : Q) (f : Image) : Image :=
  draw (Text ("GPS: " ++ Str.fixed 4 lat ++ "," ++ Str.fixed 4 lon)
          30 65 (0, 255, 255)%Z)
    (draw (Rect 20 20 280 90 (0, 255, 255)%Z 2) f).

Definition gps_message (lat lon : Q) : string :=
  "GPS Location: " ++ Str.fixed 4 lat ++ ", " ++ Str.fixed 4 lon.

(** The alerts recorded between two states. *)
Definition added (s s' : State) : list Alert :=
  drop (length (alerts_log s)) (alerts_log s').

(** [sub] occurs in [s]. *)
Definition substring (sub s : string) : Prop :=
  exists pre post, s = pre ++ sub ++ post.

(** The message of a detection alert. *)
Definition detection_message (name : string) (conf : Q) : string :=
  name ++ " detected (conf " ++ Str.fixed 2 conf ++ ")".

(** The test a detection must pass to raise an alert. *)
Definition flagged (env : Env) (det : Z * Q) : bool :=
  negb (Qltb det.2 CONF_THRESH) &&
  bool_decide (class_name env det.1 ∈ ALERT_CLASSES).

(** Neither the model nor the colour test flags anything on [c]. *)
Definition quiet (env : Env) (c : Capture) : Prop :=
  (forall boxes, cap_boxes c = Some boxes ->
     Forall (fun det => flagged env det = false) boxes) /\
  (detect_small_fire c (cap_raw c)).1 = false.

(** The frame shown for a quiet capture. *)
Definition shown (c : Capture) : Image :=
  match cap_plot c (cap_raw c) with
  | Some img => img
  | None => cap_raw c
  end.

(** The relation "the preview frame is untouched". *)
Definition same_frame (s s' : State) : Prop := frame s' = frame s.

(** From [s] to [s'] no session was opened: the session globals are the
    same, the writers are the same objects on the same files, and no
    directory has disappeared. *)
Definition stable (s s' : State) : Prop :=
  session_folder s' = session_folder s /\
  all_sessions s' = all_sessions s /\
  video_writer s' = video_writer s /\
  map sink_path (sinks s') = map sink_path (sinks s) /\
  dirs s ⊆ dirs s'.

(** The part [proj] of the state is the same in [s] and [s']. *)
Definition unchanged {T} (proj : State -> T) (s s' : State) : Prop :=
  proj s' = proj s.

(** [m] never ends with an exception. *)
Definition never_raises {A} (m : M A) : Prop :=
  forall s, exists a s', m s = Ok a s'.

(** No thread of the model is marked [Crashed], and a thread inside the
    loop has a session folder to write to. *)
Definition healthy (s : State) : Prop :=
  (forall tid exn, threads s !! tid <> Some (Crashed exn)) /\
  ((exists tid cap, threads s !! tid = Some (Looping cap)) ->
   session_folder s <> None).

(** [cv2.contourArea(cnt) > 30] *)
Definition large (cnt : Contour) : bool := Qltb 30 (contour_area cnt).

(** The rectangle [detect_small_fire] draws around a contour. *)
Definition outline (cnt : Contour) : Overlay :=
  let '(x, y, w, h) := contour_rect cnt in
  Rect x y (x + w) (y + h) (0, 140, 255)%Z 2.

(** A decimal digit or a minus sign. *)
Definition numeric_char (c : ascii) : bool :=
  let n := nat_of_ascii c in
  ((48 <=? n) && (n <=? 57))%nat || (n =? 45)%nat.

(** The string starts like the decimal notation of an integer. *)
Definition numeric_head (s : string) : bool :=
  match s with
  | String c _ => numeric_char c
  | EmptyString => false
  end.

(** The requests that only read: every route but the two that start and
    stop the camera. *)
Definition read_only (a : Action) : bool :=
  match a with
  | Get_home | Get_video_feed | Get_alerts
  | Get_download_alerts | Get_download_video => true
  | _ => false
  end.

(** An alert of type "fire" or "weapon". *)
Definition is_detection_alert (a : Alert) : bool :=
  String.eqb (alert_type a) "fire" || String.eqb (alert_type a) "weapon".

(** From [s] to [s'] the ledger has grown by entries of which [n] are
    detection alerts, [n] sounds were started and [n] positions looked up. *)
Definition tally (n : nat) (s s' : State) : Prop :=
  exists new,
    alerts_log s' = (alerts_log s ++ new)%list /\
    length (List.filter is_detection_alert new) = n /\
    beeps s' = (beeps s + n)%nat /\
    geo_calls s' = (geo_calls s + n)%nat.

(** The three alert types the script itself uses. *)
Definition known_type (ty : string) : Prop :=
  ty = "info" \/ ty = "fire" \/ ty = "weapon".

(** * Verification *)

Arguments strftime_alert : simpl never.
Arguments strftime_file : simpl never.
Arguments Str.fixed : simpl never.
Arguments csv_row : simpl never.
Arguments Qltb : simpl never.
Arguments Qeq_bool : simpl never.

(** ** Relations every computation of the script respects *)

Section Keeps.

Variable R : State -> State -> Prop.
Hypothesis R_refl : forall s, R s s.
Hypothesis R_trans : forall s1 s2 s3, R s1 s2 -> R s2 s3 -> R s1 s3.

(** Assignments to anything but the ledger, the exported files and the
    preview frame are invisible to [R]. *)
Hypothesis R_same : forall s s',
  alerts_log s' = alerts_log s ->
  _next_alert_id s' = _next_alert_id s ->
  csv_writes s' = csv_writes s ->
  frame s' = frame s ->
  R s s'.

(** Appending an alert numbered with the counter and bumping the counter. *)
Hypothesis R_append : forall s a,
  alert_id a = _next_alert_id s ->
  R s (set_next_alert_id (_next_alert_id s + 1)
         (set_alerts_log (alerts_log s ++ [a]) s)).

(** Writing the current ledger to a file. *)
Hypothesis R_csv : forall s path,
  R s (set_csv_writes (csv_writes s ++ [(path, csv_of (alerts_log s))]) s).

(** Publishing a frame. *)
Hypothesis R_frame : forall s img, R s (set_frame img s).

Lemma keeps_ret {A} (a : A) : keeps R (mret a).
Proof. intros s. apply R_refl. Qed.

Lemma keeps_get : keeps R get.
Proof. intros s. apply R_refl. Qed.

Lemma keeps_raise {A} exn : keeps R (@raise A exn).
Proof. intros s. apply R_refl. Qed.

Lemma keeps_bind {A B} (m : M A) (f : A -> M B) :
  keeps R m -> (forall a, keeps R (f a)) -> keeps R (m ≫= f).
Proof.
  intros Hm Hf s. unfold mbind, M_bind.
  specialize (Hm s). destruct (m s) as [a s'|e s']; simpl in *.
  - eapply R_trans; [exact Hm | apply Hf].
  - exact Hm.
Qed.

Lemma keeps_modify (g : State -> State) :
  (forall s, alerts_log (g s) = alerts_log s) ->
  (forall s, _next_alert_id (g s) = _next_alert_id s) ->
  (forall s, csv_writes (g s) = csv_writes s) ->
  (forall s, frame (g s) = frame s) ->
  keeps R (modify g).
Proof. intros H1 H2 H3 H4 s. simpl. apply R_same; auto. Qed.

Lemma keeps_foldM {A B} (body : B -> A -> M B) (l : list A) :
  (forall b x, keeps R (body b x)) -> forall b, keeps R (foldM body l b).
Proof.
  intros Hbody. induction l as [|x rest IH]; intros b; simpl.
  - apply keeps_ret.
  - apply keeps_bind; [apply Hbody | exact IH].
Qed.

Create HintDb keeps.

(** Decomposition of a computation along its binds and branches; the
    computations already dealt with are taken from the hint base. *)
Ltac keeps_split :=
  repeat first
    [ solve [auto with keeps nocore]
    | apply keeps_ret
    | apply keeps_get
    | apply keeps_raise
    | apply keeps_modify; intros; reflexivity
    | apply keeps_bind; [|intros]
    | match goal with
      | |- keeps _ (match ?x with _ => _ end) => destruct x
      end ].

Variable env : Env.

Lemma keeps_now : keeps R (now env).
Proof. unfold now. keeps_split. Qed.

Lemma keeps_geocoder_ip : keeps R (geocoder_ip env).
Proof. unfold geocoder_ip. keeps_split. Qed.

Lemma keeps_beep : keeps R beep.
Proof. unfold beep. keeps_split. Qed.

Lemma keeps_makedirs p : keeps R (makedirs p).
Proof. unfold makedirs. keeps_split. Qed.

Lemma keeps_VideoWriter path size : keeps R (VideoWriter path size).
Proof. unfold VideoWriter. keeps_split. Qed.

Lemma keeps_writer_write h img : keeps R (writer_write h img).
Proof. unfold writer_write. keeps_split. Qed.

Lemma keeps_writer_release h : keeps R (writer_release h).
Proof. unfold writer_release. keeps_split. Qed.

Lemma keeps_add_alert msg alert_type : keeps R (add_alert env msg alert_type).
Proof.
  intros s.
  set (s1 := set_clock_reads (S (clock_reads s)) s).
  apply R_trans with s1; [apply R_same; reflexivity|].
  exact (R_append s1
           {| alert_id := _next_alert_id s;
              alert_time := strftime_alert (now_at env (clock_reads s));
              alert_msg := msg; alert_type := alert_type |} eq_refl).
Qed.

Lemma keeps_write_csv path : keeps R (write_csv path).
Proof. intros s. apply R_csv. Qed.

Lemma keeps_get_gps_location : keeps R (get_gps_location env).
Proof. unfold get_gps_location. pose proof keeps_geocoder_ip. keeps_split; auto. Qed.

#[local] Hint Resolve keeps_now keeps_geocoder_ip keeps_beep keeps_makedirs
  keeps_VideoWriter keeps_writer_write keeps_writer_release keeps_add_alert
  keeps_write_csv keeps_get_gps_location : keeps.

Lemma keeps_save_alerts_csv : keeps R (save_alerts_csv env).
Proof. unfold save_alerts_csv. keeps_split. Qed.

Lemma keeps_gps_annotate f : keeps R (gps_annotate env f).
Proof. unfold gps_annotate. keeps_split. Qed.

#[local] Hint Resolve keeps_save_alerts_csv keeps_gps_annotate : keeps.

Lemma keeps_on_detection f det : keeps R (on_detection env f det).
Proof. unfold on_detection. keeps_split. Qed.

#[local] Hint Resolve keeps_on_detection : keeps.

Lemma keeps_annotate c : keeps R (annotate env c).
Proof.
  unfold annotate. apply keeps_bind.
  - destruct (cap_boxes c); [apply keeps_foldM|]; keeps_split.
  - intros f. keeps_split.
Qed.

#[local] Hint Resolve keeps_annotate : keeps.

Lemma keeps_after_loop : keeps R (after_loop env).
Proof. unfold after_loop. keeps_split. Qed.

#[local] Hint Resolve keeps_after_loop : keeps.

(** The turns of the loop that publish no frame: the failed read and the
    exit after a stop request. *)
Lemma keeps_camera_turn_eof : keeps R (camera_turn env []).
Proof.
  unfold camera_turn. apply keeps_bind; [apply keeps_get|]. intros s0.
  destruct (camera_running s0); keeps_split.
Qed.

Lemma keeps_camera_turn_stopped cap s :
  camera_running s = false -> R s (final (camera_turn env cap s)).
Proof.
  intros Hstop. unfold camera_turn, mbind at 1, M_bind at 1, get.
  rewrite Hstop. revert s Hstop.
  assert (H : keeps R (after_loop env;; mret Finished)) by keeps_split.
  intros s _. apply H.
Qed.

Lemma keeps_loop_body c : keeps R (loop_body env c).
Proof.
  unfold loop_body. apply keeps_bind; [auto with keeps|]. intros img.
  apply keeps_bind; [intros s; apply R_frame|]. intros _. keeps_split.
Qed.

#[local] Hint Resolve keeps_loop_body : keeps.

Lemma keeps_camera_open : keeps R (camera_open env).
Proof. unfold camera_open. keeps_split. Qed.

Lemma keeps_camera_turn cap : keeps R (camera_turn env cap).
Proof. unfold camera_turn. keeps_split. Qed.

#[local] Hint Resolve keeps_camera_open keeps_camera_turn : keeps.

Lemma keeps_camera_detection t : keeps R (camera_detection env t).
Proof. unfold camera_detection. keeps_split. Qed.

Lemma keeps_thread_turn tid : keeps R (thread_turn env tid).
Proof.
  intros s. unfold thread_turn.
  destruct (threads s !! tid) as [t|]; [|apply R_refl].
  pose proof (keeps_camera_detection t s) as H.
  destruct (camera_detection env t s) as [t' s'|exn s']; simpl in *;
    (eapply R_trans; [exact H | apply R_same; reflexivity]).
Qed.

Lemma keeps_start_camera : keeps R start_camera.
Proof. unfold start_camera. keeps_split. Qed.

Lemma keeps_stop_camera : keeps R stop_camera.
Proof. unfold stop_camera. keeps_split. Qed.

Lemma keeps_download_alerts : keeps R (download_alerts env).
Proof. unfold download_alerts. keeps_split. Qed.

Lemma keeps_download_video : keeps R (download_video env).
Proof. unfold download_video. keeps_split. Qed.

Lemma keeps_main : keeps R (main env).
Proof. unfold main. keeps_split. Qed.

#[local] Hint Resolve keeps_thread_turn keeps_start_camera keeps_stop_camera
  keeps_download_alerts keeps_download_video keeps_main : keeps.

Lemma keeps_perform a : keeps R (perform env a).
Proof.
  destruct a; simpl perform; auto with keeps;
    unfold generate_frames, home, get_alerts; keeps_split.
Qed.

(** Every schedule of the system respects [R]. *)
Lemma keeps_run schedule : forall s, R s (run env s schedule).
Proof.
  induction schedule as [|a rest IH]; intros s; simpl.
  - apply R_refl.
  - eapply R_trans; [apply (keeps_perform a s) | apply IH].
Qed.

End Keeps.

(** ** The ledger *)

(** [add_alert] in closed form. *)
Lemma add_alert_eq env msg ty s :
  add_alert env msg ty s =
  let a := {| alert_id := _next_alert_id s;
              alert_time := strftime_alert (now_at env (clock_reads s));
              alert_msg := msg; alert_type := ty |} in
  Ok a (set_next_alert_id (_next_alert_id s + 1)
          (set_alerts_log (alerts_log s ++ [a])
             (set_clock_reads (S (clock_reads s)) s))).
Proof. reflexivity. Qed.

Lemma numbered_init : numbered init.
Proof. split; [intros i a H; destruct i; discriminate | reflexivity]. Qed.

Lemma numbered_append s a :
  alert_id a = _next_alert_id s ->
  numbered s ->
  numbered (set_next_alert_id (_next_alert_id s + 1)
              (set_alerts_log (alerts_log s ++ [a]) s)).
Proof.
  intros Ha [Hids Hnext]. split; simpl.
  - intros i b Hi. apply lookup_snoc_Some in Hi as [[_ Hi]|[Hlen ->]].
    + now apply Hids.
    + rewrite Ha, Hnext, Hlen. reflexivity.
  - rewrite length_app, Hnext. simpl. lia.
Qed.

Lemma numbered_same s s' :
  alerts_log s' = alerts_log s -> _next_alert_id s' = _next_alert_id s ->
  numbered s -> numbered s'.
Proof. unfold numbered. intros -> ->. trivial. Qed.

(** Every schedule keeps the ledger numbered. *)
Lemma numbered_run env schedule s : numbered s -> numbered (run env s schedule).
Proof.
  revert s. apply (keeps_run (fun s s' => numbered s -> numbered s')).
  - auto.
  - auto.
  - intros s s' H1 H2 _ _. now apply numbered_same.
  - intros s a Ha. now apply numbered_append.
  - intros s path. now apply numbered_same.
  - intros s img. now apply numbered_same.
Qed.

(** Every schedule only appends to the ledger. *)
Lemma ledger_grows env schedule s :
  alerts_log s `prefix_of` alerts_log (run env s schedule).
Proof.
  revert s.
  apply (keeps_run (fun s s' => alerts_log s `prefix_of` alerts_log s')).
  - reflexivity.
  - intros s1 s2 s3 H1 H2. now transitivity (alerts_log s2).
  - intros s s' -> _ _ _. reflexivity.
  - intros s a _. simpl. now apply prefix_app_r.
  - reflexivity.
  - reflexivity.
Qed.

(** C1. Whatever the system does from process start (requests, direct
    calls of [add_alert], turns of any number of detection threads over any
    number of start/stop cycles), the event at position [i] of the ledger
    has the identifier [i + 1]: identifiers start at 1 and grow by one per
    recorded event, without repetition or gap.  The next call of
    [add_alert] returns the event it appends, numbered one past the last;
    the ledger only ever grows at its end, and [/alerts] answers with the
    ledger in that order. *)
Theorem alert_ids_sequential env schedule :
  let s := run env init schedule in
  (forall i a, alerts_log s !! i = Some a -> alert_id a = (Z.of_nat i + 1)%Z) /\
  (forall msg ty, exists a,
      value (add_alert env msg ty s) = Some a /\
      alert_id a = (Z.of_nat (length (alerts_log s)) + 1)%Z /\
      alert_msg a = msg /\ alert_type a = ty /\
      alerts_log (final (add_alert env msg ty s)) = (alerts_log s ++ [a])%list) /\
  (forall more, alerts_log s `prefix_of` alerts_log (run env s more)) /\
  get_alerts s = Ok (Json (alerts_log s)) s.
Proof.
  intros s.
  destruct (numbered_run env schedule init numbered_init) as [Hids Hnext].
  fold s in Hids, Hnext.
  split; [exact Hids|]. split; [|split].
  - intros msg ty. rewrite add_alert_eq. simpl.
    eexists. split; [reflexivity|]. simpl. rewrite Hnext. auto.
  - intros more. apply ledger_grows.
  - reflexivity.
Qed.

(** ** Exports of the ledger *)

Lemma exports_refl s : exports s s.
Proof.
  split; [reflexivity|]. exists []. split; [now rewrite app_nil_r | constructor].
Qed.

Lemma exports_trans s1 s2 s3 : exports s1 s2 -> exports s2 s3 -> exports s1 s3.
Proof.
  intros [P12 (f12 & E12 & F12)] [P23 (f23 & E23 & F23)].
  split; [now transitivity (alerts_log s2)|].
  exists (f12 ++ f23)%list. split; [now rewrite E23, E12, app_assoc|].
  apply Forall_app. split.
  - eapply Forall_impl; [exact F12|].
    intros pc (log & Hc & Hlo & Hhi). exists log.
    repeat split; auto. now transitivity (alerts_log s2).
  - eapply Forall_impl; [exact F23|].
    intros pc (log & Hc & Hlo & Hhi). exists log.
    repeat split; auto. now transitivity (alerts_log s2).
Qed.

Lemma exports_same s s' :
  alerts_log s' = alerts_log s -> csv_writes s' = csv_writes s -> exports s s'.
Proof.
  intros Hl Hc. split; [now rewrite Hl|].
  exists []. split; [now rewrite Hc, app_nil_r | constructor].
Qed.

Lemma exports_run env schedule s : exports s (run env s schedule).
Proof.
  revert s. apply (keeps_run exports).
  - apply exports_refl.
  - apply exports_trans.
  - intros s s' H1 _ H3 _. now apply exports_same.
  - intros s a _. split; simpl; [now apply prefix_app_r|].
    exists []. split; [now rewrite app_nil_r | constructor].
  - intros s path. split; [reflexivity|].
    exists [(path, csv_of (alerts_log s))]. split; [reflexivity|].
    constructor; [|constructor]. exists (alerts_log s). now simpl.
  - intros s img. now apply exports_same.
Qed.

Lemma csv_of_row log a : a ∈ log -> csv_row a ∈ csv_of log.
Proof.
  intros H. unfold csv_of. apply list_elem_of_further.
  apply list_elem_of_fmap. eauto.
Qed.

(** C6. With an empty ledger [save_alerts_csv] returns at once and leaves
    every part of the state, files included, as it was, and
    [/download_alerts] answers 404 "No alerts to download" without writing
    anything.  With a non-empty ledger both produce the header
    [id,time,msg,type], the keys of an alert, followed by exactly one row
    per event of the ledger. *)
Theorem export_csv_contract env s :
  (alerts_log s = [] ->
     save_alerts_csv env s = Ok tt s /\
     download_alerts env s = Ok (Plain "No alerts to download" 404) s) /\
  (alerts_log s <> [] ->
     (forall folder, session_folder s = Some folder ->
        exists path s',
          save_alerts_csv env s = Ok tt s' /\
          csv_writes s' =
            (csv_writes s ++ [(path, alert_keys :: map csv_row (alerts_log s))])%list) /\
     (exists name s',
        download_alerts env s =
          Ok (CsvAttachment name (alert_keys :: map csv_row (alerts_log s))) s' /\
        csv_writes s' = csv_writes s)) /\
  length (map csv_row (alerts_log s)) = length (alerts_log s) /\
  alert_keys = ["id"; "time"; "msg"; "type"].
Proof.
  split; [|split; [|split; [apply length_map | reflexivity]]].
  - intros Hempty. unfold save_alerts_csv, download_alerts, mbind, M_bind, get.
    rewrite Hempty. split; reflexivity.
  - intros Hne. split.
    + intros folder Hfolder.
      unfold save_alerts_csv, mbind, M_bind, get.
      destruct (alerts_log s) as [|a log] eqn:Hlog; [contradiction|].
      rewrite <- Hlog, Hfolder.
      destruct (bool_decide (folder ∈ dirs s));
        do 2 eexists; split; reflexivity.
    + unfold download_alerts, mbind, M_bind, get.
      destruct (alerts_log s) as [|a log] eqn:Hlog; [contradiction|].
      rewrite <- Hlog. do 2 eexists. split; reflexivity.
Qed.

(** The theorem at work: nothing to export at process start, one row after
    the start-up alert. *)
Lemma export_csv_contract_witness :
  (save_alerts_csv Demo.env3 init = Ok tt init /\
   download_alerts Demo.env3 init = Ok (Plain "No alerts to download" 404) init) /\
  (exists name s',
     download_alerts Demo.env3 (step Demo.env3 init Run_main) =
       Ok (CsvAttachment name
             (alert_keys ::
              map csv_row (alerts_log (step Demo.env3 init Run_main)))) s' /\
     csv_writes s' = csv_writes (step Demo.env3 init Run_main)).
Proof.
  split.
  - apply (proj1 (export_csv_contract Demo.env3 init)). reflexivity.
  - apply (proj1 (proj2 (export_csv_contract Demo.env3
                           (step Demo.env3 init Run_main)))).
    vm_compute. discriminate.
Defined.

(** ** The control surface *)

(** C4. [/start_camera] while the flag [camera_running] is set answers
    "Camera already running" (an ordinary 200 answer) and changes nothing:
    no thread is started, no session is registered.  [/stop_camera] while
    the flag is clear answers "Camera not running" and changes nothing. *)
Theorem start_stop_guards s :
  (camera_running s = true ->
     start_camera s = Ok (Plain "Camera already running" 200) s) /\
  (camera_running s = false ->
     stop_camera s = Ok (Plain "Camera not running" 200) s).
Proof.
  unfold start_camera, stop_camera, mbind, M_bind, get.
  split; intros ->; reflexivity.
Qed.

Lemma start_stop_guards_witness :
  start_camera (step Demo.env3 init Get_start_camera) =
    Ok (Plain "Camera already running" 200)
       (step Demo.env3 init Get_start_camera) /\
  stop_camera init = Ok (Plain "Camera not running" 200) init.
Proof.
  split.
  - apply (proj1 (start_stop_guards (step Demo.env3 init Get_start_camera))).
    reflexivity.
  - apply (proj2 (start_stop_guards init)). reflexivity.
Defined.

(** ** The detection thread *)

(** C7. When the camera does not open, the first turn of a detection
    thread appends exactly one "info" alert ("Camera failed to open"),
    clears [camera_running] and returns: no session folder is chosen or
    created, no video writer is created, [all_sessions] is unchanged, and
    no file is written. *)
Theorem camera_unavailable env s tid :
  threads s !! tid = Some Spawned ->
  camera_at env (cam_opens s) = None ->
  let s' := step env s (Thread_turn tid) in
  alerts_log s' =
    (alerts_log s ++
     [{| alert_id := _next_alert_id s;
         alert_time := strftime_alert (now_at env (clock_reads s));
         alert_msg := "Camera failed to open";
         alert_type := "info" |}])%list /\
  camera_running s' = false /\
  threads s' = <[tid := Finished]> (threads s) /\
  session_folder s' = session_folder s /\
  all_sessions s' = all_sessions s /\
  video_writer s' = video_writer s /\
  sinks s' = sinks s /\
  dirs s' = dirs s /\
  csv_writes s' = csv_writes s /\
  frame s' = frame s.
Proof.
  intros Ht Hcam s'. subst s'.
  unfold step, perform, thread_turn. rewrite Ht.
  unfold camera_detection, camera_open, mbind, M_bind, get, modify.
  simpl. rewrite Hcam. simpl. repeat split.
Qed.

Lemma camera_unavailable_witness :
  let s' := run Demo.env_nocam init [Get_start_camera; Thread_turn 0] in
  length (alerts_log s') = 1%nat /\ camera_running s' = false /\
  threads s' = [Finished] /\ session_folder s' = None /\
  all_sessions s' = [] /\ video_writer s' = None /\ sinks s' = [] /\
  dirs s' = ∅ /\ csv_writes s' = [].
Proof.
  destruct (camera_unavailable Demo.env_nocam
              (step Demo.env_nocam init Get_start_camera) 0
              eq_refl eq_refl)
    as (H1 & H2 & H3 & H4 & H5 & H6 & H7 & H8 & H9 & _).
  change (run Demo.env_nocam init [Get_start_camera; Thread_turn 0])
    with (step Demo.env_nocam (step Demo.env_nocam init Get_start_camera)
            (Thread_turn 0)).
  cbv zeta. rewrite H1, H2, H3, H4, H5, H6, H7, H8, H9.
  repeat split.
Defined.

(** ** Position lookup *)

Lemma Qltb_lt x y : Qltb x y = true <-> (x < y)%Q.
Proof. unfold Qltb, Qlt. apply Z.ltb_lt. Qed.

Lemma Qltb_ge x y : Qltb x y = false <-> (y <= x)%Q.
Proof. unfold Qltb, Qle. rewrite Z.ltb_ge. reflexivity. Qed.

Lemma gps_differs_spec gps :
  gps_differs gps = false <-> (fst gps == 0 /\ snd gps == 0)%Q.
Proof.
  unfold gps_differs. rewrite negb_false_iff, andb_true_iff.
  now rewrite !Qeq_bool_iff.
Qed.

(** [gps_annotate] in closed form. *)
Lemma gps_annotate_eq env f s :
  gps_annotate env f s =
  let s1 := set_geo_calls (S (geo_calls s)) s in
  match geo_at env (geo_calls s) with
  | GeoOk lat lon =>
      if gps_differs (lat, lon)
      then Ok (gps_drawn lat lon f)
             (final (add_alert env (gps_message lat lon) "info" s1))
      else Ok f s1
  | _ => Ok f s1
  end.
Proof.
  unfold gps_annotate, get_gps_location, geocoder_ip, mbind, M_bind, get, modify.
  destruct (geo_at env (geo_calls s)) as [| |lat lon]; try reflexivity.
  simpl. destruct (gps_differs (lat, lon)); reflexivity.
Qed.

(** C10. [get_gps_location] answers [(0.0, 0.0)] when the geocoder raises
    and when it reports failure.  After an alert the loop draws the
    position on the frame and records one "info" alert carrying it when
    the answer differs from [(0.0, 0.0)], and does neither when it does not
    differ.  Hence a successful lookup whose coordinates are both zero
    leaves the frame and the state exactly as a failed lookup does. *)
Theorem gps_sentinel env f s :
  let s1 := set_geo_calls (S (geo_calls s)) s in
  (geo_at env (geo_calls s) = GeoRaise \/ geo_at env (geo_calls s) = GeoNotOk ->
     get_gps_location env s = Ok (0, 0)%Q s1 /\
     gps_annotate env f s = Ok f s1) /\
  (forall lat lon s2, get_gps_location env s = Ok (lat, lon) s2 ->
     s2 = s1 /\
     (~ (lat == 0 /\ lon == 0)%Q ->
        gps_annotate env f s =
          Ok (gps_drawn lat lon f)
             (final (add_alert env (gps_message lat lon) "info" s1))) /\
     ((lat == 0 /\ lon == 0)%Q -> gps_annotate env f s = Ok f s1)) /\
  (forall lat lon, geo_at env (geo_calls s) = GeoOk lat lon ->
     (lat == 0)%Q -> (lon == 0)%Q -> gps_annotate env f s = Ok f s1).
Proof.
  intros s1. split; [|split].
  - intros H. rewrite gps_annotate_eq.
    unfold get_gps_location, geocoder_ip, mbind, M_bind, get, modify.
    destruct H as [-> | ->]; split; reflexivity.
  - intros lat lon s2 Hget. rewrite gps_annotate_eq. fold s1.
    unfold get_gps_location, geocoder_ip, mbind, M_bind, get, modify in Hget.
    simpl in Hget.
    destruct (geo_at env (geo_calls s)) as [| |lat' lon'];
      injection Hget as <- <- <-; (split; [reflexivity|]); split; intros H;
      try reflexivity.
    + exfalso. apply H. split; reflexivity.
    + exfalso. apply H. split; reflexivity.
    + destruct (gps_differs (lat', lon')) eqn:Hd; [reflexivity|].
      apply gps_differs_spec in Hd. contradiction.
    + apply (proj2 (gps_differs_spec (lat', lon'))) in H. now rewrite H.
  - intros lat lon Hgeo Hlat Hlon. rewrite gps_annotate_eq, Hgeo. fold s1.
    assert (Hd : gps_differs (lat, lon) = false)
      by (apply gps_differs_spec; split; assumption).
    now rewrite Hd.
Qed.

Lemma gps_sentinel_witness :
  gps_annotate (Demo.env_knife (GeoOk 0 (0 # 5))) (Demo.blank 1) init =
  gps_annotate (Demo.env_knife GeoRaise) (Demo.blank 1) init.
Proof.
  rewrite (proj2 (proj2 (gps_sentinel (Demo.env_knife (GeoOk 0 (0 # 5)))
                           (Demo.blank 1) init)) 0%Q (0 # 5)%Q eq_refl
             eq_refl eq_refl).
  rewrite (proj2 (proj1 (gps_sentinel (Demo.env_knife GeoRaise)
                           (Demo.blank 1) init) (or_introl eq_refl))).
  reflexivity.
Defined.

(** ** Detections of the model *)

Lemma starts_with_spec p s :
  Str.starts_with p s = true <-> exists post, s = p ++ post.
Proof.
  revert s. induction p as [|a p IH]; intros s; simpl.
  - split; [intros _; now exists s | reflexivity].
  - destruct s as [|b s].
    + split; [discriminate | intros [post H]; discriminate].
    + destruct (Ascii.eqb a b) eqn:Hab.
      * apply Ascii.eqb_eq in Hab. subst b. rewrite IH.
        split; intros [post H]; exists post; [now rewrite H | now injection H].
      * apply Ascii.eqb_neq in Hab.
        split; [discriminate | intros [post H]; injection H; congruence].
Qed.

Lemma contains_spec sub s : Str.contains sub s = true <-> substring sub s.
Proof.
  unfold substring. induction s as [|c s IH].
  - simpl. rewrite orb_false_r, starts_with_spec. split.
    + intros [post H]. now exists "", post.
    + intros ([|c pre] & post & H); [now exists post | discriminate].
  - change (Str.contains sub (String c s))
      with (Str.starts_with sub (String c s) || Str.contains sub s).
    rewrite orb_true_iff, starts_with_spec, IH. split.
    + intros [[post H] | (pre & post & H)].
      * now exists "", post.
      * exists (String c pre), post. simpl. now rewrite H.
    + intros ([|c' pre] & post & H).
      * left. now exists post.
      * right. exists pre, post. simpl in H. now injection H.
Qed.

Lemma gps_annotate_log env f s :
  exists extra,
    alerts_log (final (gps_annotate env f s)) = (alerts_log s ++ extra)%list /\
    Forall (fun g => alert_type g = "info") extra.
Proof.
  rewrite gps_annotate_eq.
  destruct (geo_at env (geo_calls s)) as [| |lat lon];
    try (exists []; split; [simpl; now rewrite app_nil_r | constructor]).
  simpl. destruct (gps_differs (lat, lon)).
  - eexists [_]. split; [reflexivity|]. repeat constructor.
  - exists []. split; [simpl; now rewrite app_nil_r | constructor].
Qed.

(** [on_detection] in closed form. *)
Lemma on_detection_eq env f cls conf s :
  on_detection env f (cls, conf) s =
  let name := class_name env cls in
  if Qltb conf CONF_THRESH then Ok f s
  else if bool_decide (name ∈ ALERT_CLASSES) then
    gps_annotate env f
      (set_beeps (S (beeps s))
         (final (add_alert env (detection_message name conf)
                   (alert_type_of name) s)))
  else Ok f s.
Proof.
  unfold on_detection. cbv zeta.
  destruct (Qltb conf CONF_THRESH); [reflexivity|].
  destruct (bool_decide (class_name env cls ∈ ALERT_CLASSES)); reflexivity.
Qed.

(** What a detection above the threshold with a restricted label adds to
    the ledger: its own alert, then at most the position alert. *)
Lemma on_detection_added env f cls conf s :
  (CONF_THRESH <= conf)%Q ->
  class_name env cls ∈ ALERT_CLASSES ->
  exists rest,
    added s (final (on_detection env f (cls, conf) s)) =
      {| alert_id := _next_alert_id s;
         alert_time := strftime_alert (now_at env (clock_reads s));
         alert_msg := detection_message (class_name env cls) conf;
         alert_type := alert_type_of (class_name env cls) |} :: rest /\
    Forall (fun g => alert_type g = "info") rest.
Proof.
  intros Hconf Hname. rewrite on_detection_eq. cbv zeta.
  apply Qltb_ge in Hconf. rewrite Hconf.
  rewrite bool_decide_eq_true_2 by exact Hname.
  match goal with |- context [gps_annotate env f ?s2] =>
    destruct (gps_annotate_log env f s2) as (extra & Hlog & Hinfo)
  end.
  exists extra. split; [|exact Hinfo].
  unfold added. rewrite Hlog. simpl.
  rewrite <- app_assoc. rewrite drop_app_length. reflexivity.
Qed.


Lemma alert_type_of_cases name :
  alert_type_of name = "fire" \/ alert_type_of name = "weapon".
Proof.
  unfold alert_type_of.
  destruct (Str.contains "fire" name || Str.contains "flame" name); auto.
Qed.



(** C3. The alert recorded for a detection (confidence at least 0.35,
    lower-cased label [name] in the restricted set) has category "fire"
    exactly when "fire" or "flame" occurs in [name], and "weapon" in every
    other case; for "smoke" it is "weapon".  (The occurrence test is on
    substrings, so "firearm" is filed under "fire".) *)
Theorem alert_category env f cls conf s :
  let name := class_name env cls in
  (CONF_THRESH <= conf)%Q ->
  name ∈ ALERT_CLASSES ->
  exists a rest,
    added s (final (on_detection env f (cls, conf) s)) = a :: rest /\
    alert_id a = _next_alert_id s /\
    alert_msg a = detection_message name conf /\
    (alert_type a = "fire" <-> substring "fire" name \/ substring "flame" name) /\
    (alert_type a = "weapon" <->
       ~ (substring "fire" name \/ substring "flame" name)) /\
    (name = "smoke" -> alert_type a = "weapon") /\
    (name = "firearm" -> alert_type a = "fire") /\
    Forall (fun g => alert_type g = "info") rest.
Proof.
  intros name Hconf Hname.
  destruct (on_detection_added env f cls conf s Hconf Hname) as (rest & -> & Hrest).
  do 2 eexists. split; [reflexivity|]. simpl. fold name.
  assert (Hfire : Str.contains "fire" name || Str.contains "flame" name = true
                  <-> substring "fire" name \/ substring "flame" name)
    by (now rewrite orb_true_iff, !contains_spec).
  repeat split; try exact Hrest; unfold alert_type_of.
  - intros H. apply Hfire.
    destruct (Str.contains "fire" name || Str.contains "flame" name);
      [reflexivity | discriminate].
  - intros H. apply Hfire in H. now rewrite H.
  - intros H Hsub. apply Hfire in Hsub. rewrite Hsub in H. discriminate.
  - intros H.
    destruct (Str.contains "fire" name || Str.contains "flame" name);
      [|reflexivity].
    exfalso. apply H, Hfire. reflexivity.
  - intros ->. reflexivity.
  - intros ->. reflexivity.
Qed.

Lemma alert_category_witness :
  exists a rest,
    added init (final (on_detection (Demo.env_knife GeoNotOk) (Demo.blank 1)
                         (80%Z, 0.9%Q) init)) = a :: rest /\
    alert_type a = "weapon".
Proof.
  destruct (alert_category (Demo.env_knife GeoNotOk) (Demo.blank 1) 80 0.9 init)
    as (a & rest & Hadd & _ & _ & _ & _ & Hsmoke & _).
  - discriminate.
  - vm_compute. reflexivity.
  - exists a, rest. split; [exact Hadd|]. apply Hsmoke. reflexivity.
Defined.

(** ** Loop passes on which nothing is detected *)

Lemma foldM_unflagged env boxes f s :
  Forall (fun det => flagged env det = false) boxes ->
  foldM (on_detection env) boxes f s = Ok f s.
Proof.
  induction 1 as [|[cls conf] rest Hdet _ IH]; [reflexivity|].
  change (foldM (on_detection env) ((cls, conf) :: rest) f s)
    with (match on_detection env f (cls, conf) s with
          | Ok f' s' => foldM (on_detection env) rest f' s'
          | Raised exn s' => Raised exn s'
          end).
  rewrite on_detection_eq. cbv zeta.
  unfold flagged in Hdet. simpl in Hdet.
  destruct (Qltb conf CONF_THRESH); [exact IH|].
  simpl in Hdet. rewrite Hdet. exact IH.
Qed.

Lemma mark_contours_true contours f :
  (mark_contours contours f true).1 = true.
Proof.
  revert f. induction contours as [|cnt rest IH]; intros f; simpl; [reflexivity|].
  destruct (Qltb 30 (contour_area cnt)); [|apply IH].
  destruct (contour_rect cnt) as [[[x y] w] h]. apply IH.
Qed.

Lemma mark_contours_false contours f :
  (mark_contours contours f false).1 = false ->
  mark_contours contours f false = (false, f).
Proof.
  revert f. induction contours as [|cnt rest IH]; intros f; simpl; [reflexivity|].
  destruct (Qltb 30 (contour_area cnt)); [|apply IH].
  destruct (contour_rect cnt) as [[[x y] w] h].
  rewrite mark_contours_true. discriminate.
Qed.

Lemma annotate_quiet env c s : quiet env c -> annotate env c s = Ok (shown c) s.
Proof.
  intros [Hboxes Hfire]. unfold annotate, mbind, M_bind.
  assert (Hfold : match cap_boxes c with
                  | Some boxes => foldM (on_detection env) boxes (cap_raw c)
                  | None => mret (cap_raw c)
                  end s = Ok (cap_raw c) s).
  { destruct (cap_boxes c) as [boxes|]; [|reflexivity].
    apply foldM_unflagged. now apply Hboxes. }
  rewrite Hfold. unfold detect_small_fire in *.
  rewrite (mark_contours_false _ _ Hfire). reflexivity.
Qed.

Lemma loop_body_quiet env c s h :
  quiet env c -> video_writer s = Some h ->
  loop_body env c s =
  Ok tt (set_sinks (alter (sink_write (shown c)) h (sinks s))
           (set_frame (Some (shown c)) s)).
Proof.
  intros Hq Hw. unfold loop_body, mbind, M_bind.
  rewrite (annotate_quiet env c s Hq). simpl. now rewrite Hw.
Qed.

Lemma turn_quiet env s tid c rest h :
  threads s !! tid = Some (Looping (c :: rest)) ->
  camera_running s = true ->
  video_writer s = Some h ->
  quiet env c ->
  step env s (Thread_turn tid) =
  set_threads (<[tid := Looping rest]> (threads s))
    (set_sinks (alter (sink_write (shown c)) h (sinks s))
       (set_frame (Some (shown c)) s)).
Proof.
  intros Ht Hrun Hw Hq. unfold step, perform, thread_turn. rewrite Ht.
  unfold camera_detection, camera_turn, mbind, M_bind, get. rewrite Hrun.
  rewrite (loop_body_quiet env c s h Hq Hw). reflexivity.
Qed.

Lemma turn_open env s tid cam :
  threads s !! tid = Some Spawned ->
  camera_at env (cam_opens s) = Some cam ->
  step env s (Thread_turn tid) =
  let folder := path_join env "sessions" (strftime_file (now_at env (clock_reads s))) in
  set_threads (<[tid := Looping (cam_frames cam)]> (threads s))
    (set_video_writer (Some (length (sinks s)))
       (set_sinks (sinks s ++
                   [{| sink_path := path_join env folder "recorded_video.mp4";
                       sink_size := (cam_width cam, cam_height cam);
                       sink_frames := []; sink_open := true |}])
          (set_all_sessions (all_sessions s ++ [folder])
             (set_dirs (dirs s ∪ {[ folder ]})
                (set_session_folder (Some folder)
                   (set_clock_reads (S (clock_reads s))
                      (set_cam_opens (S (cam_opens s)) s))))))).
Proof.
  intros Ht Hcam. unfold step, perform, thread_turn. rewrite Ht.
  unfold camera_detection, camera_open, mbind, M_bind, get, modify.
  simpl. rewrite Hcam. reflexivity.
Qed.

Lemma save_alerts_csv_nonempty env s folder :
  alerts_log s <> [] ->
  session_folder s = Some folder ->
  exists D,
    save_alerts_csv env s =
    Ok tt (set_csv_writes
             (csv_writes s ++
              [(path_join env folder
                  ("alerts_" ++ strftime_file (now_at env (clock_reads s)) ++ ".csv"),
                csv_of (alerts_log s))])
             (set_clock_reads (S (clock_reads s)) (set_dirs D s))).
Proof.
  intros Hne Hfolder. unfold save_alerts_csv, mbind, M_bind, get.
  destruct (alerts_log s) as [|a log] eqn:Hlog; [contradiction|].
  rewrite <- Hlog, Hfolder.
  destruct (bool_decide (folder ∈ dirs s)); eexists; reflexivity.
Qed.

(** The turn on which [cap.read()] fails. *)
Lemma turn_eof env s tid h folder :
  threads s !! tid = Some (Looping []) ->
  camera_running s = true ->
  video_writer s = Some h ->
  session_folder s = Some folder ->
  exists D,
    step env s (Thread_turn tid) =
    let failed := {| alert_id := _next_alert_id s;
                     alert_time := strftime_alert (now_at env (clock_reads s));
                     alert_msg := "Frame read failed";
                     alert_type := "info" |} in
    set_threads (<[tid := Finished]> (threads s))
      (set_csv_writes
         (csv_writes s ++
          [(path_join env folder
              ("alerts_" ++ strftime_file (now_at env (S (clock_reads s))) ++ ".csv"),
            csv_of (alerts_log s ++ [failed]))])
         (set_clock_reads (S (S (clock_reads s)))
            (set_dirs D
               (set_camera_running false
                  (set_sinks (alter sink_release h (sinks s))
                     (set_next_alert_id (_next_alert_id s + 1)
                        (set_alerts_log (alerts_log s ++ [failed])
                           (set_clock_reads (S (clock_reads s)) s)))))))).
Proof.
  intros Ht Hrun Hw Hfolder. unfold step, perform, thread_turn. rewrite Ht.
  unfold camera_detection, camera_turn, mbind, M_bind, get. rewrite Hrun.
  rewrite add_alert_eq. cbv zeta.
  unfold after_loop, mbind, M_bind, get.
  change (video_writer (set_next_alert_id _ (set_alerts_log _ (set_clock_reads _ s))))
    with (video_writer s).
  rewrite Hw.
  unfold writer_release, modify.
  match goal with |- context [save_alerts_csv env ?s0] =>
    destruct (save_alerts_csv_nonempty env s0 folder) as [D ->];
      [simpl; intros E; symmetry in E; exact (app_cons_not_nil _ _ _ E)
      | exact Hfolder |]
  end.
  exists D. reflexivity.
Qed.

(** Names the state the next pending step starts from. *)
Ltac innermost_state name :=
  match goal with
  | |- context [step _ ?s _] =>
      lazymatch s with
      | context [step] => fail
      | _ => set (name := s)
      end
  end.

(** C5. From the initial state (empty ledger), with a camera that opens
    and delivers three frames before [read] fails, and with nothing flagged
    on any of them: after the start request and the five turns of the
    detection thread (open, three passes, the failed read) the session's
    video writer has received exactly the three frames and is released,
    the ledger holds the single alert "Frame read failed" of type "info"
    (recorded after the third frame), and one CSV file has been written in
    the session folder, holding the header and that single row. *)
Theorem three_quiet_frames env cam c1 c2 c3 :
  camera_at env 0 = Some cam ->
  cam_frames cam = [c1; c2; c3] ->
  quiet env c1 -> quiet env c2 -> quiet env c3 ->
  let s := run env init [Get_start_camera; Thread_turn 0; Thread_turn 0;
                         Thread_turn 0; Thread_turn 0; Thread_turn 0] in
  let folder := path_join env "sessions" (strftime_file (now_at env 0)) in
  let failed := {| alert_id := 1;
                   alert_time := strftime_alert (now_at env 1);
                   alert_msg := "Frame read failed";
                   alert_type := "info" |} in
  sinks s = [{| sink_path := path_join env folder "recorded_video.mp4";
                sink_size := (cam_width cam, cam_height cam);
                sink_frames := [shown c1; shown c2; shown c3];
                sink_open := false |}] /\
  alerts_log s = [failed] /\
  csv_writes s =
    [(path_join env folder ("alerts_" ++ strftime_file (now_at env 2) ++ ".csv"),
      [["id"; "time"; "msg"; "type"];
       ["1"; strftime_alert (now_at env 1); "Frame read failed"; "info"]])] /\
  all_sessions s = [folder] /\
  camera_running s = false /\
  threads s = [Finished] /\
  frame s = Some (shown c3).
Proof.
  intros Hcam Hframes Hq1 Hq2 Hq3. unfold run. simpl fold_left.
  set (s1 := step env init Get_start_camera).
  rewrite (turn_open env s1 0 cam eq_refl Hcam). rewrite Hframes. cbv zeta.
  innermost_state s2.
  rewrite (turn_quiet env s2 0 c1 [c2; c3] 0 eq_refl eq_refl eq_refl Hq1).
  innermost_state s3.
  rewrite (turn_quiet env s3 0 c2 [c3] 0 eq_refl eq_refl eq_refl Hq2).
  innermost_state s4.
  rewrite (turn_quiet env s4 0 c3 [] 0 eq_refl eq_refl eq_refl Hq3).
  innermost_state s5.
  destruct (turn_eof env s5 0 0 _ eq_refl eq_refl eq_refl eq_refl) as [D ->].
  repeat split.
Qed.

Lemma demo_quiet env n : quiet env (Demo.quiet n).
Proof.
  split; [|reflexivity].
  intros boxes H. injection H as <-. constructor.
Qed.

Lemma three_quiet_frames_witness :
  let s := run Demo.env3 init
             [Get_start_camera; Thread_turn 0; Thread_turn 0; Thread_turn 0;
              Thread_turn 0; Thread_turn 0] in
  map sink_frames (sinks s) =
    [[Demo.boxed (Demo.blank 1); Demo.boxed (Demo.blank 2);
      Demo.boxed (Demo.blank 3)]] /\
  map alert_msg (alerts_log s) = ["Frame read failed"] /\
  map (fun pc => length pc.2) (csv_writes s) = [2%nat].
Proof.
  destruct (three_quiet_frames Demo.env3
              (Demo.webcam [Demo.quiet 1; Demo.quiet 2; Demo.quiet 3])
              (Demo.quiet 1) (Demo.quiet 2) (Demo.quiet 3)
              eq_refl eq_refl (demo_quiet _ 1) (demo_quiet _ 2) (demo_quiet _ 3))
    as (Hsinks & Hlog & Hcsv & _).
  cbv zeta. rewrite Hsinks, Hlog, Hcsv. repeat split.
Defined.

(** ** The preview frame *)

Ltac same_frame_by lemma :=
  apply (lemma same_frame);
  solve [ unfold same_frame; intros; simpl; congruence ].

Lemma annotate_frame env c s : frame (final (annotate env c s)) = frame s.
Proof. revert s. same_frame_by keeps_annotate. Qed.

Lemma camera_open_frame env s : frame (final (camera_open env s)) = frame s.
Proof. revert s. same_frame_by keeps_camera_open. Qed.

Lemma camera_turn_eof_frame env s :
  frame (final (camera_turn env [] s)) = frame s.
Proof. revert s. same_frame_by keeps_camera_turn_eof. Qed.

Lemma camera_turn_stopped_frame env cap s :
  camera_running s = false -> frame (final (camera_turn env cap s)) = frame s.
Proof. revert cap s. same_frame_by keeps_camera_turn_stopped. Qed.

(** A turn of a thread leaves in [frame] what its body leaves there. *)
Lemma thread_turn_frame env tid s t :
  threads s !! tid = Some t ->
  frame (final (thread_turn env tid s)) = frame (final (camera_detection env t s)).
Proof.
  intros Ht. unfold thread_turn. rewrite Ht.
  destruct (camera_detection env t s); reflexivity.
Qed.

(** A loop pass publishes the frame [annotate] produced. *)
Lemma loop_body_frame env c s :
  frame (final (loop_body env c s)) =
  match value (annotate env c s) with
  | Some img => Some img
  | None => frame s
  end.
Proof.
  unfold loop_body, mbind at 1, M_bind at 1.
  pose proof (annotate_frame env c s) as Hkept.
  destruct (annotate env c s) as [img s1|exn s1]; simpl in *; [|exact Hkept].
  unfold mbind, M_bind, get, modify. simpl.
  destruct (video_writer s1); reflexivity.
Qed.

(** Each step either publishes the frame it produced or leaves the preview
    frame alone. *)
Lemma step_frame env s a :
  frame (step env s a) =
  match produced env s a with
  | Some img => Some img
  | None => frame s
  end.
Proof.
  destruct a as [| | | | | | | |msg ty|tid]; unfold step; simpl produced;
    try (revert s; simpl perform;
         first [ same_frame_by keeps_main
               | same_frame_by keeps_start_camera
               | same_frame_by keeps_stop_camera
               | same_frame_by keeps_download_alerts
               | same_frame_by keeps_download_video
               | intros s; unfold generate_frames, mbind, M_bind, get;
                 destruct (frame s) eqn:E; exact E
               | intros s; reflexivity ]).
  simpl perform.
  destruct (threads s !! tid) as [t|] eqn:Ht; [|unfold thread_turn; now rewrite Ht].
  rewrite (thread_turn_frame env tid s t Ht).
  destruct t as [|[|c rest]| |exn]; simpl camera_detection; try reflexivity.
  - apply camera_open_frame.
  - rewrite camera_turn_eof_frame. reflexivity.
  - destruct (camera_running s) eqn:Hrun.
    + unfold camera_turn, mbind at 1, M_bind at 1, get. rewrite Hrun.
      unfold mbind at 1, M_bind at 1.
      pose proof (loop_body_frame env c s) as Hbody.
      destruct (loop_body env c s); exact Hbody.
    + now apply camera_turn_stopped_frame.
Qed.

Lemma run_frame env schedule :
  forall s, frame (run env s schedule) = latest_produced env s schedule (frame s).
Proof.
  induction schedule as [|a rest IH]; intros s; simpl; [reflexivity|].
  rewrite IH, step_frame. reflexivity.
Qed.

Lemma run_app env s l1 l2 : run env s (l1 ++ l2) = run env (run env s l1) l2.
Proof. unfold run. apply fold_left_app. Qed.

Lemma latest_produced_some env schedule :
  forall s img, exists img', latest_produced env s schedule (Some img) = Some img'.
Proof.
  induction schedule as [|a rest IH]; intros s img; simpl; [eauto|].
  destruct (produced env s a); apply IH.
Qed.

(** C8. At every reachable state the preview frame is the frame produced
    by the most recent loop pass of any detection thread, and [None] if no
    pass has produced one yet.  So once a pass (for instance the first pass
    of a new session) has produced [img], the preview frame is [img] or a
    frame produced after it, never one from before; the stream yields
    nothing while the frame is [None] and the frame otherwise. *)
Theorem preview_holds_latest_frame env schedule :
  let s := run env init schedule in
  frame s = latest_produced env init schedule None /\
  (forall earlier a later img,
     schedule = (earlier ++ a :: later)%list ->
     produced env (run env init earlier) a = Some img ->
     frame s = latest_produced env (run env init (earlier ++ [a])) later (Some img) /\
     exists img', frame s = Some img') /\
  generate_frames s =
    Ok (match frame s with Some img => Jpeg img | None => Nothing end) s.
Proof.
  intros s. split; [apply run_frame|]. split.
  - intros earlier a later img -> Hprod. subst s.
    assert (E : frame (run env init (earlier ++ a :: later)) =
                latest_produced env (run env init (earlier ++ [a])) later (Some img)).
    { change (earlier ++ a :: later)%list with (earlier ++ [a] ++ later)%list.
      rewrite app_assoc, run_app, run_frame. f_equal.
      rewrite run_app. simpl. rewrite step_frame, Hprod. reflexivity. }
    split; [exact E|]. rewrite E. apply latest_produced_some.
  - unfold generate_frames, mbind, M_bind, get. destruct (frame s); reflexivity.
Qed.

(** Two sessions in a row: as soon as the second one has produced its
    frame, the preview shows it and no longer the frame of the first. *)
Lemma preview_holds_latest_frame_witness :
  frame (run Demo.env_sessions init
           [Get_start_camera; Thread_turn 0; Thread_turn 0; Get_stop_camera;
            Thread_turn 0; Get_start_camera; Thread_turn 1; Thread_turn 1;
            Get_alerts]) =
  Some (Demo.boxed (Demo.blank 2)).
Proof.
  destruct (proj1 (proj2 (preview_holds_latest_frame Demo.env_sessions
              [Get_start_camera; Thread_turn 0; Thread_turn 0; Get_stop_camera;
               Thread_turn 0; Get_start_camera; Thread_turn 1; Thread_turn 1;
               Get_alerts]))
              [Get_start_camera; Thread_turn 0; Thread_turn 0; Get_stop_camera;
               Thread_turn 0; Get_start_camera; Thread_turn 1]
              (Thread_turn 1) [Get_alerts] (Demo.boxed (Demo.blank 2))
              eq_refl eq_refl) as [H _].
  rewrite H. reflexivity.
Defined.

(** ** The export at the end of a session *)

(** The lines after the loop write the whole ledger, when it is not empty,
    to a file of the current session folder. *)
Lemma after_loop_export env s folder :
  session_folder s = Some folder ->
  alerts_log s <> [] ->
  exists s',
    after_loop env s = Ok tt s' /\
    alerts_log s' = alerts_log s /\
    csv_writes s' =
      (csv_writes s ++
       [(path_join env folder
           ("alerts_" ++ strftime_file (now_at env (clock_reads s)) ++ ".csv"),
         csv_of (alerts_log s))])%list.
Proof.
  intros Hfolder Hne.
  unfold after_loop, mbind, M_bind, get, writer_release, modify.
  destruct (video_writer s) as [h|]; simpl;
    match goal with |- context [save_alerts_csv env ?s0] =>
      destruct (save_alerts_csv_nonempty env s0 folder Hne Hfolder) as [D ->]
    end;
    eexists; repeat split.
Qed.

(** The turn on which a thread leaves the loop, by a failed read or after
    a stop request, seen from the files. *)
Lemma exit_turn_export env s tid cap folder :
  threads s !! tid = Some (Looping cap) ->
  session_folder s = Some folder ->
  (camera_running s = true /\ cap = []) \/
  (camera_running s = false /\ alerts_log s <> []) ->
  let s' := step env s (Thread_turn tid) in
  alerts_log s `prefix_of` alerts_log s' /\
  exists stamp,
    csv_writes s' =
      (csv_writes s ++
       [(path_join env folder ("alerts_" ++ stamp ++ ".csv"),
         csv_of (alerts_log s'))])%list.
Proof.
  intros Ht Hfolder Hexit. cbv zeta.
  assert (Hstep : exists s' log stamp,
            step env s (Thread_turn tid) =
              set_threads (<[tid := Finished]> (threads s')) s' /\
            alerts_log s `prefix_of` log /\
            alerts_log s' = log /\
            csv_writes s' =
              (csv_writes s ++
               [(path_join env folder ("alerts_" ++ stamp ++ ".csv"),
                 csv_of log)])%list).
  { unfold step, perform, thread_turn. rewrite Ht.
    unfold camera_detection, camera_turn, mbind at 1, M_bind at 1, get.
    destruct Hexit as [[Hrun ->] | [Hrun Hne]]; rewrite Hrun.
    - unfold mbind at 1, M_bind at 1. rewrite add_alert_eq. cbv zeta.
      unfold mbind at 1, M_bind at 1.
      match goal with |- context [after_loop env ?s0] =>
        destruct (after_loop_export env s0 folder Hfolder)
          as (s' & -> & Hlog & Hcsv)
      end.
      { simpl. intros E. symmetry in E. exact (app_cons_not_nil _ _ _ E). }
      simpl in Hlog, Hcsv. do 3 eexists.
      split; [reflexivity|]. split; [|split; [exact Hlog | exact Hcsv]].
      now apply prefix_app_r.
    - unfold mbind at 1, M_bind at 1.
      destruct (after_loop_export env s folder Hfolder Hne)
        as (s' & -> & Hlog & Hcsv).
      do 3 eexists.
      split; [reflexivity|]. split; [|split; [exact Hlog | exact Hcsv]].
      reflexivity. }
  destruct Hstep as (s' & log & stamp & -> & Hgrow & Hlog & Hcsv). simpl.
  rewrite Hlog. split; [exact Hgrow|]. exists stamp. exact Hcsv.
Qed.

(** C9. Take the system at any point of its life ([earlier]) and let it go
    on ([later], for instance through further start/stop cycles).  The
    ledger is not cleared, and every CSV file written in the meantime is
    the serialisation of a ledger that extends the earlier one.  When a
    detection thread then leaves the loop (its read fails, or a stop was
    requested and the ledger is not empty) it writes one file into the
    current session folder, and that file is the serialisation of the
    whole ledger as it is at that moment: it has a row for every event
    recorded before, whichever session recorded it. *)
Theorem session_csv_holds_whole_ledger env earlier later :
  let s1 := run env init earlier in
  let s2 := run env s1 later in
  alerts_log s1 `prefix_of` alerts_log s2 /\
  (exists files,
     csv_writes s2 = (csv_writes s1 ++ files)%list /\
     forall path content, (path, content) ∈ files ->
       (exists log, content = csv_of log /\
                    alerts_log s1 `prefix_of` log /\
                    log `prefix_of` alerts_log s2) /\
       (forall a, a ∈ alerts_log s1 -> csv_row a ∈ content)) /\
  (forall tid cap folder,
     threads s2 !! tid = Some (Looping cap) ->
     session_folder s2 = Some folder ->
     (camera_running s2 = true /\ cap = []) \/
     (camera_running s2 = false /\ alerts_log s2 <> []) ->
     let s3 := step env s2 (Thread_turn tid) in
     exists stamp,
       csv_writes s3 =
         (csv_writes s2 ++
          [(path_join env folder ("alerts_" ++ stamp ++ ".csv"),
            csv_of (alerts_log s3))])%list /\
       alerts_log s2 `prefix_of` alerts_log s3 /\
       (forall a, a ∈ alerts_log s1 -> csv_row a ∈ csv_of (alerts_log s3))).
Proof.
  intros s1 s2.
  destruct (exports_run env later s1) as [Hp (files & Hf & Hall)].
  fold s2 in Hp, Hf, Hall.
  split; [exact Hp|]. split.
  - exists files. split; [exact Hf|].
    intros path content Hin.
    rewrite Forall_forall in Hall.
    destruct (Hall _ Hin) as (log & Hc & Hlo & Hhi). simpl in Hc. subst content.
    split; [eauto|].
    intros a Ha. apply csv_of_row.
    destruct Hlo as [k ->]. apply elem_of_app. now left.
  - intros tid cap folder Ht Hfolder Hexit s3.
    destruct (exit_turn_export env s2 tid cap folder Ht Hfolder Hexit)
      as (Hgrow & stamp & Hcsv).
    fold s3 in Hgrow, Hcsv.
    exists stamp. split; [exact Hcsv|]. split; [exact Hgrow|].
    intros a Ha. apply csv_of_row.
    destruct Hp as [k1 Hk1]. destruct Hgrow as [k2 Hk2].
    rewrite Hk2, Hk1. apply elem_of_app. left. apply elem_of_app. now left.
Qed.

(** Two sessions: the first ends on a failed read and records it; when the
    second ends the same way, the file it writes into its own folder has
    the row of the first session's alert. *)
Lemma session_csv_holds_whole_ledger_witness :
  let first := [Get_start_camera; Thread_turn 0; Thread_turn 0; Thread_turn 0] in
  let second := [Get_start_camera; Thread_turn 1; Thread_turn 1] in
  let s2 := run Demo.env_sessions (run Demo.env_sessions init first) second in
  let s3 := step Demo.env_sessions s2 (Thread_turn 1) in
  exists stamp,
    csv_writes s3 =
      (csv_writes s2 ++
       [(("sessions/20240309_120003/alerts_" ++ stamp ++ ".csv")%string,
         csv_of (alerts_log s3))])%list /\
    ["1"; "2024-03-09 12:00:01"; "Frame read failed"; "info"]
      ∈ csv_of (alerts_log s3).
Proof.
  cbv zeta.
  destruct (session_csv_holds_whole_ledger Demo.env_sessions
              [Get_start_camera; Thread_turn 0; Thread_turn 0; Thread_turn 0]
              [Get_start_camera; Thread_turn 1; Thread_turn 1])
    as (_ & _ & Hexit).
  destruct (Hexit 1 [] "sessions/20240309_120003" eq_refl eq_refl
              (or_introl (conj eq_refl eq_refl)))
    as (stamp & Hcsv & _ & Hrows).
  exists stamp. split; [exact Hcsv|].
  apply (Hrows {| alert_id := 1; alert_time := "2024-03-09 12:00:01";
                  alert_msg := "Frame read failed"; alert_type := "info" |}).
  vm_compute. apply list_elem_of_here.
Defined.

(** ** Runs of the model *)

(** A knife at confidence 0.9 and no position: one "weapon" alert, then the
    failed read once the camera runs dry. *)
Example knife_without_position :
  map (fun a => (alert_id a, alert_type a, alert_msg a))
    (alerts_log (run (Demo.env_knife GeoNotOk) init
                   [Get_start_camera; Thread_turn 0; Thread_turn 0;
                    Thread_turn 0; Thread_turn 0])) =
  [(1%Z, "weapon", "knife detected (conf 0.90)");
   (2%Z, "info", "Frame read failed")].
Proof. vm_compute. reflexivity. Qed.

(** The same with a position: the "info" alert that carries it follows the
    "weapon" alert, and the frame shown has the position drawn on it. *)
Example knife_with_position :
  let s := run (Demo.env_knife (GeoOk 48.8566 2.3522)) init
             [Get_start_camera; Thread_turn 0; Thread_turn 0] in
  map (fun a => (alert_id a, alert_type a, alert_msg a)) (alerts_log s) =
    [(1%Z, "weapon", "knife detected (conf 0.90)");
     (2%Z, "info", "GPS Location: 48.8566, 2.3522")] /\
  frame s = Some (Demo.boxed (gps_drawn 48.8566 2.3522 (Demo.blank 1))).
Proof. vm_compute. split; reflexivity. Qed.

(** Two sessions that both end on a failed read: the file of the second
    session repeats the row of the first. *)
Example second_session_csv :
  map snd (csv_writes (run Demo.env_sessions init
                         [Get_start_camera; Thread_turn 0; Thread_turn 0;
                          Thread_turn 0;
                          Get_start_camera; Thread_turn 1; Thread_turn 1;
                          Thread_turn 1])) =
  [[["id"; "time"; "msg"; "type"];
    ["1"; "2024-03-09 12:00:01"; "Frame read failed"; "info"]];
   [["id"; "time"; "msg"; "type"];
    ["1"; "2024-03-09 12:00:01"; "Frame read failed"; "info"];
    ["2"; "2024-03-09 12:00:04"; "Frame read failed"; "info"]]].
Proof. vm_compute. reflexivity. Qed.

(** The categories of the eight restricted labels. *)
Example categories :
  map alert_type_of
    ["knife"; "gun"; "pistol"; "rifle"; "firearm"; "fire"; "flame"; "smoke"] =
  ["weapon"; "weapon"; "weapon"; "weapon"; "fire"; "fire"; "fire"; "weapon"].
Proof. reflexivity. Qed.

(** A start request that arrives after a stop request but before the old
    thread has looked at the flag leaves two threads in the loop. *)
Example restart_before_exit :
  threads (run Demo.env3 init
             [Get_start_camera; Thread_turn 0; Get_stop_camera;
              Get_start_camera; Thread_turn 1; Thread_turn 0]) =
  [Looping [Demo.quiet 2; Demo.quiet 3];
   Looping [Demo.quiet 1; Demo.quiet 2; Demo.quiet 3]].
Proof. vm_compute. reflexivity. Qed.

(** * Further properties of [app.py] *)

(** ** Relations respected by everything but a successful camera opening *)

Section Walk.

Variable R : State -> State -> Prop.

(** The alert types the relation can cope with. *)
Variable OkType : string -> Prop.

Hypothesis W_refl : forall s, R s s.
Hypothesis W_trans : forall s1 s2 s3, R s1 s2 -> R s2 s3 -> R s1 s3.

(** Counters, the running flag, the thread table and the preview frame are
    invisible to [R]. *)
Hypothesis W_offstage : forall s s',
  alerts_log s' = alerts_log s ->
  _next_alert_id s' = _next_alert_id s ->
  video_writer s' = video_writer s ->
  session_folder s' = session_folder s ->
  all_sessions s' = all_sessions s ->
  sinks s' = sinks s ->
  dirs s' = dirs s ->
  csv_writes s' = csv_writes s ->
  R s s'.

Hypothesis W_dirs : forall s p, R s (set_dirs (dirs s ∪ {[ p ]}) s).

Hypothesis W_alert : forall s a,
  OkType (alert_type a) ->
  alert_id a = _next_alert_id s ->
  R s (set_next_alert_id (_next_alert_id s + 1)
         (set_alerts_log (alerts_log s ++ [a]) s)).

Hypothesis W_write : forall s h img,
  R s (set_sinks (alter (sink_write img) h (sinks s)) s).

Hypothesis W_release : forall s h,
  R s (set_sinks (alter sink_release h (sinks s)) s).

Hypothesis W_csv : forall s path,
  R s (set_csv_writes (csv_writes s ++ [(path, csv_of (alerts_log s))]) s).

Hypothesis Ok_info : OkType "info".
Hypothesis Ok_fire : OkType "fire".
Hypothesis Ok_weapon : OkType "weapon".

Variable env : Env.

Lemma walk_modify (g : State -> State) :
  (forall s, alerts_log (g s) = alerts_log s) ->
  (forall s, _next_alert_id (g s) = _next_alert_id s) ->
  (forall s, video_writer (g s) = video_writer s) ->
  (forall s, session_folder (g s) = session_folder s) ->
  (forall s, all_sessions (g s) = all_sessions s) ->
  (forall s, sinks (g s) = sinks s) ->
  (forall s, dirs (g s) = dirs s) ->
  (forall s, csv_writes (g s) = csv_writes s) ->
  keeps R (modify g).
Proof. intros H1 H2 H3 H4 H5 H6 H7 H8 s. simpl. apply W_offstage; auto. Qed.

Create HintDb walk.

Ltac walk_split :=
  repeat first
    [ solve [auto with walk nocore]
    | apply (keeps_ret R W_refl)
    | apply (keeps_get R W_refl)
    | apply (keeps_raise R W_refl)
    | apply walk_modify; intros; reflexivity
    | apply (keeps_bind R W_trans); [|intros]
    | match goal with
      | |- keeps _ (match ?x with _ => _ end) => destruct x
      end ].

Lemma walk_now : keeps R (now env).
Proof. unfold now. walk_split. Qed.

Lemma walk_geocoder_ip : keeps R (geocoder_ip env).
Proof. unfold geocoder_ip. walk_split. Qed.

Lemma walk_beep : keeps R beep.
Proof. unfold beep. walk_split. Qed.

Lemma walk_makedirs p : keeps R (makedirs p).
Proof. intros s. apply W_dirs. Qed.

Lemma walk_writer_write h img : keeps R (writer_write h img).
Proof. intros s. apply W_write. Qed.

Lemma walk_writer_release h : keeps R (writer_release h).
Proof. intros s. apply W_release. Qed.

Lemma walk_write_csv path : keeps R (write_csv path).
Proof. intros s. apply W_csv. Qed.

Lemma walk_add_alert msg ty : OkType ty -> keeps R (add_alert env msg ty).
Proof.
  intros Hty s.
  set (s1 := set_clock_reads (S (clock_reads s)) s).
  apply W_trans with s1; [apply W_offstage; reflexivity|].
  exact (W_alert s1
           {| alert_id := _next_alert_id s;
              alert_time := strftime_alert (now_at env (clock_reads s));
              alert_msg := msg; alert_type := ty |} Hty eq_refl).
Qed.

#[local] Hint Resolve walk_now walk_geocoder_ip walk_beep walk_makedirs
  walk_writer_write walk_writer_release walk_write_csv walk_add_alert : walk.

Lemma walk_get_gps_location : keeps R (get_gps_location env).
Proof. unfold get_gps_location. walk_split. Qed.

#[local] Hint Resolve walk_get_gps_location : walk.

Lemma walk_save_alerts_csv : keeps R (save_alerts_csv env).
Proof. unfold save_alerts_csv. walk_split. Qed.

Lemma walk_gps_annotate f : keeps R (gps_annotate env f).
Proof. unfold gps_annotate. walk_split. Qed.

#[local] Hint Resolve walk_save_alerts_csv walk_gps_annotate : walk.

Lemma walk_on_detection f det : keeps R (on_detection env f det).
Proof.
  unfold on_detection. destruct det as [cls conf].
  assert (OkType (alert_type_of (class_name env cls)))
    by (unfold alert_type_of; destruct (_ || _); assumption).
  walk_split.
Qed.

#[local] Hint Resolve walk_on_detection : walk.

Lemma walk_annotate c : keeps R (annotate env c).
Proof.
  unfold annotate. apply (keeps_bind R W_trans).
  - destruct (cap_boxes c); [apply (keeps_foldM R W_refl W_trans)|]; walk_split.
  - intros f. walk_split.
Qed.

#[local] Hint Resolve walk_annotate : walk.

Lemma walk_loop_body c : keeps R (loop_body env c).
Proof. unfold loop_body. walk_split. Qed.

Lemma walk_after_loop : keeps R (after_loop env).
Proof. unfold after_loop. walk_split. Qed.

#[local] Hint Resolve walk_loop_body walk_after_loop : walk.

Lemma walk_camera_turn cap : keeps R (camera_turn env cap).
Proof. unfold camera_turn. walk_split. Qed.

(** The opening of the camera when the camera does not open. *)
Lemma walk_camera_open_failed s :
  camera_at env (cam_opens s) = None -> R s (final (camera_open env s)).
Proof.
  intros Hcam. unfold camera_open, mbind at 1, M_bind at 1, get.
  unfold mbind at 1, M_bind at 1, modify.
  rewrite Hcam.
  set (s1 := set_cam_opens (S (cam_opens s)) s).
  apply W_trans with s1; [apply W_offstage; reflexivity|].
  assert (H : keeps R (add_alert env "Camera failed to open" "info";;
                       modify (set_camera_running false);; mret Finished))
    by walk_split.
  apply H.
Qed.

Lemma walk_start_camera : keeps R start_camera.
Proof. unfold start_camera. walk_split. Qed.

Lemma walk_stop_camera : keeps R stop_camera.
Proof. unfold stop_camera. walk_split. Qed.

Lemma walk_download_alerts : keeps R (download_alerts env).
Proof. unfold download_alerts. walk_split. Qed.

Lemma walk_download_video : keeps R (download_video env).
Proof. unfold download_video. walk_split. Qed.

Lemma walk_main : keeps R (main env).
Proof. unfold main. walk_split. Qed.

(** A turn of a thread that is not about to open the camera with success. *)
Lemma walk_thread_turn tid s :
  (threads s !! tid = Some Spawned -> camera_at env (cam_opens s) = None) ->
  R s (final (thread_turn env tid s)).
Proof.
  intros Hopen. unfold thread_turn.
  destruct (threads s !! tid) as [t|]; [|apply W_refl].
  assert (H : R s (final (camera_detection env t s))).
  { destruct t as [|cap| |exn]; simpl.
    - apply walk_camera_open_failed. now apply Hopen.
    - apply walk_camera_turn.
    - apply W_refl.
    - apply W_refl. }
  destruct (camera_detection env t s) as [t' s'|exn s']; simpl in *;
    (eapply W_trans; [exact H | apply W_offstage; reflexivity]).
Qed.

(** Every step respects [R], provided it is not a successful opening of
    the camera and records no alert of a foreign type. *)
Lemma walk_step s a :
  (forall msg ty, a = Call_add_alert msg ty -> OkType ty) ->
  (forall tid, a = Thread_turn tid -> threads s !! tid = Some Spawned ->
     camera_at env (cam_opens s) = None) ->
  R s (step env s a).
Proof.
  intros Hty Hopen. unfold step.
  destruct a as [| | | | | | | |msg ty|tid]; simpl perform.
  - apply walk_main.
  - assert (H : keeps R home) by (unfold home; walk_split). apply H.
  - assert (H : keeps R generate_frames) by (unfold generate_frames; walk_split). apply H.
  - assert (H : keeps R get_alerts) by (unfold get_alerts; walk_split). apply H.
  - apply walk_start_camera.
  - apply walk_stop_camera.
  - apply walk_download_alerts.
  - apply walk_download_video.
  - assert (H : keeps R (add_alert env msg ty;; mret Nothing)).
    { apply (keeps_bind R W_trans);
        [apply walk_add_alert; now apply (Hty msg ty) | intros; apply (keeps_ret R W_refl)]. }
    apply H.
  - apply walk_thread_turn. now apply Hopen.
Qed.

End Walk.

(** ** Sessions *)

Lemma alter_sink_path (g : Sink -> Sink) h (l : list Sink) :
  (forall k, sink_path (g k) = sink_path k) ->
  map sink_path (alter g h l) = map sink_path l.
Proof.
  intros Hg. revert h. induction l as [|k l IH]; intros [|h]; simpl;
    try reflexivity.
  - now rewrite Hg.
  - f_equal. apply IH.
Qed.

Lemma sink_write_path img k : sink_path (sink_write img k) = sink_path k.
Proof. unfold sink_write. now destruct (sink_open k). Qed.

Lemma stable_refl s : stable s s.
Proof. repeat split; reflexivity. Qed.

Lemma stable_trans s1 s2 s3 : stable s1 s2 -> stable s2 s3 -> stable s1 s3.
Proof.
  intros (A1 & A2 & A3 & A4 & A5) (B1 & B2 & B3 & B4 & B5).
  repeat split; try congruence. now transitivity (dirs s2).
Qed.

(** Every step but a successful opening of the camera is [stable]. *)
Lemma stable_step env s a :
  (forall tid, a = Thread_turn tid -> threads s !! tid = Some Spawned ->
     camera_at env (cam_opens s) = None) ->
  stable s (step env s a).
Proof.
  apply (walk_step stable (fun _ => True)); auto.
  - apply stable_refl.
  - apply stable_trans.
  - intros s0 s' _ _ H3 H4 H5 H6 H7 _. unfold stable.
    rewrite H3, H4, H5, H6, H7. repeat split; reflexivity.
  - intros s0 p. repeat split; try reflexivity. simpl. set_solver.
  - intros s0 a0 _ _. repeat split; simpl; reflexivity.
  - intros s0 h img. repeat split; try reflexivity. simpl.
    apply alter_sink_path, sink_write_path.
  - intros s0 h. repeat split; try reflexivity. simpl.
    now apply alter_sink_path.
  - intros s0 path. repeat split; simpl; reflexivity.
Qed.

(** ** Parts of the state a computation leaves alone *)

Section Frame.

Context {T : Type}.
Variable proj : State -> T.

(** Which assignments leave [proj] alone; each lemma below depends on the
    assignments its computation makes. *)
Hypothesis P_log : forall v s, proj (set_alerts_log v s) = proj s.
Hypothesis P_next : forall v s, proj (set_next_alert_id v s) = proj s.
Hypothesis P_running : forall v s, proj (set_camera_running v s) = proj s.
Hypothesis P_frame : forall v s, proj (set_frame v s) = proj s.
Hypothesis P_writer : forall v s, proj (set_video_writer v s) = proj s.
Hypothesis P_folder : forall v s, proj (set_session_folder v s) = proj s.
Hypothesis P_sessions : forall v s, proj (set_all_sessions v s) = proj s.
Hypothesis P_threads : forall v s, proj (set_threads v s) = proj s.
Hypothesis P_sinks : forall v s, proj (set_sinks v s) = proj s.
Hypothesis P_dirs : forall v s, proj (set_dirs v s) = proj s.
Hypothesis P_csv : forall v s, proj (set_csv_writes v s) = proj s.
Hypothesis P_beeps : forall v s, proj (set_beeps v s) = proj s.
Hypothesis P_clock : forall v s, proj (set_clock_reads v s) = proj s.
Hypothesis P_geo : forall v s, proj (set_geo_calls v s) = proj s.
Hypothesis P_opens : forall v s, proj (set_cam_opens v s) = proj s.

Variable env : Env.

Abbreviation kept := (keeps (unchanged proj)).

Lemma unchanged_refl s : unchanged proj s s.
Proof. reflexivity. Qed.

Lemma unchanged_trans s1 s2 s3 :
  unchanged proj s1 s2 -> unchanged proj s2 s3 -> unchanged proj s1 s3.
Proof. unfold unchanged. congruence. Qed.

Create HintDb frame.

Ltac frame_split :=
  repeat first
    [ solve [auto with frame nocore]
    | apply (keeps_ret _ unchanged_refl)
    | apply (keeps_get _ unchanged_refl)
    | apply (keeps_raise _ unchanged_refl)
    | apply (keeps_bind _ unchanged_trans); [|intros]
    | match goal with
      | |- keeps _ (match ?x with _ => _ end) => destruct x
      end ].

Lemma kept_now : kept (now env).
Proof.
  unfold now. frame_split. intros s. apply P_clock.
Qed.

Lemma kept_geocoder_ip : kept (geocoder_ip env).
Proof.
  unfold geocoder_ip. frame_split. intros s. apply P_geo.
Qed.

Lemma kept_beep : kept beep.
Proof. intros s. apply P_beeps. Qed.

Lemma kept_makedirs p : kept (makedirs p).
Proof. intros s. apply P_dirs. Qed.

Lemma kept_VideoWriter path size : kept (VideoWriter path size).
Proof.
  unfold VideoWriter. frame_split. intros s. apply P_sinks.
Qed.

Lemma kept_writer_write h img : kept (writer_write h img).
Proof. intros s. apply P_sinks. Qed.

Lemma kept_writer_release h : kept (writer_release h).
Proof. intros s. apply P_sinks. Qed.

Lemma kept_write_csv path : kept (write_csv path).
Proof. intros s. apply P_csv. Qed.

Lemma kept_add_alert msg ty : kept (add_alert env msg ty).
Proof.
  intros s. rewrite add_alert_eq. cbv zeta. unfold unchanged. simpl.
  now rewrite P_next, P_log, P_clock.
Qed.

Lemma kept_set_running b : kept (modify (set_camera_running b)).
Proof. intros s. apply P_running. Qed.

#[local] Hint Resolve kept_now kept_geocoder_ip kept_beep kept_makedirs
  kept_VideoWriter kept_writer_write kept_writer_release kept_write_csv
  kept_add_alert kept_set_running : frame.

Lemma kept_get_gps_location : kept (get_gps_location env).
Proof. unfold get_gps_location. frame_split. Qed.

#[local] Hint Resolve kept_get_gps_location : frame.

Lemma kept_save_alerts_csv : kept (save_alerts_csv env).
Proof. unfold save_alerts_csv. frame_split. Qed.

Lemma kept_gps_annotate f : kept (gps_annotate env f).
Proof. unfold gps_annotate. frame_split. Qed.

#[local] Hint Resolve kept_save_alerts_csv kept_gps_annotate : frame.

Lemma kept_on_detection f det : kept (on_detection env f det).
Proof. unfold on_detection. frame_split. Qed.

#[local] Hint Resolve kept_on_detection : frame.

Lemma kept_annotate c : kept (annotate env c).
Proof.
  unfold annotate. apply (keeps_bind _ unchanged_trans).
  - destruct (cap_boxes c);
      [apply (keeps_foldM _ unchanged_refl unchanged_trans)|]; frame_split.
  - intros f. frame_split.
Qed.

#[local] Hint Resolve kept_annotate : frame.

Lemma kept_loop_body c : kept (loop_body env c).
Proof.
  unfold loop_body. apply (keeps_bind _ unchanged_trans); [auto with frame|].
  intros img. apply (keeps_bind _ unchanged_trans);
    [intros s; apply P_frame|]. intros _. frame_split.
Qed.

Lemma kept_after_loop : kept (after_loop env).
Proof. unfold after_loop. frame_split. Qed.

#[local] Hint Resolve kept_loop_body kept_after_loop : frame.

Lemma kept_camera_turn cap : kept (camera_turn env cap).
Proof. unfold camera_turn. frame_split. Qed.

Lemma kept_camera_open : kept (camera_open env).
Proof.
  unfold camera_open. apply (keeps_bind _ unchanged_trans);
    [apply (keeps_get _ unchanged_refl)|]. intros s0.
  apply (keeps_bind _ unchanged_trans); [intros s; apply P_opens|]. intros _.
  destruct (camera_at env (cam_opens s0)) as [cam|]; [|frame_split].
  apply (keeps_bind _ unchanged_trans); [auto with frame|]. intros t.
  apply (keeps_bind _ unchanged_trans); [intros s; apply P_folder|]. intros _.
  apply (keeps_bind _ unchanged_trans); [auto with frame|]. intros _.
  apply (keeps_bind _ unchanged_trans); [intros s; apply P_sessions|]. intros _.
  apply (keeps_bind _ unchanged_trans); [auto with frame|]. intros h.
  apply (keeps_bind _ unchanged_trans); [intros s; apply P_writer|]. intros _.
  apply (keeps_ret _ unchanged_refl).
Qed.

#[local] Hint Resolve kept_camera_turn kept_camera_open : frame.

Lemma kept_camera_detection t : kept (camera_detection env t).
Proof. unfold camera_detection. frame_split. Qed.

Lemma kept_thread_turn tid : kept (thread_turn env tid).
Proof.
  intros s. unfold thread_turn.
  destruct (threads s !! tid) as [t|]; [|reflexivity].
  pose proof (kept_camera_detection t s) as H. unfold unchanged in *.
  destruct (camera_detection env t s) as [t' s'|exn s']; simpl in *;
    now rewrite P_threads.
Qed.

Lemma kept_start_camera : kept start_camera.
Proof.
  unfold start_camera. frame_split. intros s. apply P_threads.
Qed.

Lemma kept_stop_camera : kept stop_camera.
Proof. unfold stop_camera. frame_split. Qed.

Lemma kept_download_alerts : kept (download_alerts env).
Proof. unfold download_alerts. frame_split. Qed.

Lemma kept_download_video : kept (download_video env).
Proof. unfold download_video. frame_split. Qed.

Lemma kept_main : kept (main env).
Proof. unfold main. frame_split. Qed.

End Frame.

(** ** Computations that cannot raise *)

Lemma nr_ret {A} (a : A) : never_raises (mret a).
Proof. intros s. now exists a, s. Qed.

Lemma nr_get : never_raises get.
Proof. intros s. now exists s, s. Qed.

Lemma nr_modify g : never_raises (modify g).
Proof. intros s. now exists tt, (g s). Qed.

Lemma nr_bind {A B} (m : M A) (f : A -> M B) :
  never_raises m -> (forall a, never_raises (f a)) -> never_raises (m ≫= f).
Proof.
  intros Hm Hf s. unfold mbind, M_bind.
  destruct (Hm s) as (a & s' & ->). apply Hf.
Qed.

Lemma nr_foldM {A B} (body : B -> A -> M B) (l : list A) :
  (forall b x, never_raises (body b x)) ->
  forall b, never_raises (foldM body l b).
Proof.
  intros Hbody. induction l as [|x rest IH]; intros b; simpl.
  - apply nr_ret.
  - apply nr_bind; [apply Hbody | exact IH].
Qed.

Create HintDb nr.

#[local] Hint Resolve nr_ret nr_get nr_modify : nr.

Ltac nr_split :=
  repeat first
    [ solve [auto with nr nocore]
    | apply nr_bind; [|intros]
    | match goal with
      | |- never_raises (match ?x with _ => _ end) => destruct x
      end ].

Lemma nr_now env : never_raises (now env).
Proof. unfold now. nr_split. Qed.

Lemma nr_geocoder_ip env : never_raises (geocoder_ip env).
Proof. unfold geocoder_ip. nr_split. Qed.

Lemma nr_beep : never_raises beep.
Proof. apply nr_modify. Qed.

Lemma nr_add_alert env msg ty : never_raises (add_alert env msg ty).
Proof. intros s. rewrite add_alert_eq. cbv zeta. eauto. Qed.

#[local] Hint Resolve nr_now nr_geocoder_ip nr_beep nr_add_alert : nr.

Lemma nr_get_gps_location env : never_raises (get_gps_location env).
Proof. unfold get_gps_location. nr_split. Qed.

#[local] Hint Resolve nr_get_gps_location : nr.

Lemma nr_gps_annotate env f : never_raises (gps_annotate env f).
Proof. unfold gps_annotate. nr_split. Qed.

#[local] Hint Resolve nr_gps_annotate : nr.

Lemma nr_on_detection env f det : never_raises (on_detection env f det).
Proof. unfold on_detection. nr_split. Qed.

#[local] Hint Resolve nr_on_detection : nr.

Lemma nr_annotate env c : never_raises (annotate env c).
Proof.
  unfold annotate. apply nr_bind.
  - destruct (cap_boxes c); [apply nr_foldM|]; nr_split.
  - intros f. nr_split.
Qed.

(** ** The turns of a detection thread in closed form *)

Ltac same_part lemma proj := apply (lemma _ proj); intros; reflexivity.

(** What [annotate] leaves alone: everything but the ledger and the call
    counters. *)
Lemma annotate_backstage env c s :
  let s1 := final (annotate env c s) in
  camera_running s1 = camera_running s /\ video_writer s1 = video_writer s /\
  session_folder s1 = session_folder s /\ all_sessions s1 = all_sessions s /\
  threads s1 = threads s /\ sinks s1 = sinks s /\ dirs s1 = dirs s /\
  csv_writes s1 = csv_writes s /\ cam_opens s1 = cam_opens s.
Proof.
  cbv zeta. repeat split; revert s.
  - same_part @kept_annotate camera_running.
  - same_part @kept_annotate video_writer.
  - same_part @kept_annotate session_folder.
  - same_part @kept_annotate all_sessions.
  - same_part @kept_annotate threads.
  - same_part @kept_annotate sinks.
  - same_part @kept_annotate dirs.
  - same_part @kept_annotate csv_writes.
  - same_part @kept_annotate cam_opens.
Qed.

(** A pass of the loop: the frame produced is published and handed to the
    current writer. *)
Lemma turn_pass env s tid c rest :
  threads s !! tid = Some (Looping (c :: rest)) ->
  camera_running s = true ->
  exists img s1,
    annotate env c s = Ok img s1 /\
    step env s (Thread_turn tid) =
    set_threads (<[tid := Looping rest]> (threads s))
      (match video_writer s with
       | Some h => set_sinks (alter (sink_write img) h (sinks s))
                     (set_frame (Some img) s1)
       | None => set_frame (Some img) s1
       end).
Proof.
  intros Ht Hrun.
  destruct (annotate_backstage env c s) as (_ & Hw & _ & _ & Hth & Hsk & _).
  destruct (nr_annotate env c s) as (img & s1 & Hann).
  rewrite Hann in Hw, Hth, Hsk. simpl in Hw, Hth, Hsk.
  exists img, s1. split; [exact Hann|].
  unfold step, perform, thread_turn. rewrite Ht.
  unfold camera_detection, camera_turn, mbind at 1, M_bind at 1, get.
  rewrite Hrun. unfold mbind at 1, M_bind at 1.
  unfold loop_body, mbind at 1, M_bind at 1. rewrite Hann.
  unfold mbind, M_bind, get, modify. simpl.
  rewrite Hw. destruct (video_writer s); simpl; now rewrite Hth, ?Hsk.
Qed.

(** The exit after a stop request: the writer is released, the flag is
    cleared and the ledger, if it is not empty, is written out. *)
Lemma turn_stopped env s tid cap h folder :
  threads s !! tid = Some (Looping cap) ->
  camera_running s = false ->
  video_writer s = Some h ->
  session_folder s = Some folder ->
  let s1 := set_camera_running false
              (set_sinks (alter sink_release h (sinks s)) s) in
  (alerts_log s = [] ->
     step env s (Thread_turn tid) =
     set_threads (<[tid := Finished]> (threads s)) s1) /\
  (alerts_log s <> [] ->
     exists D,
       step env s (Thread_turn tid) =
       set_threads (<[tid := Finished]> (threads s))
         (set_csv_writes
            (csv_writes s ++
             [(path_join env folder
                 ("alerts_" ++ strftime_file (now_at env (clock_reads s)) ++ ".csv"),
               csv_of (alerts_log s))])
            (set_clock_reads (S (clock_reads s)) (set_dirs D s1)))).
Proof.
  intros Ht Hrun Hw Hfolder s1.
  assert (Hstep : step env s (Thread_turn tid) =
                  final (thread_turn env tid s)) by reflexivity.
  unfold thread_turn in Hstep. rewrite Ht in Hstep.
  unfold camera_detection, camera_turn, mbind at 1, M_bind at 1, get in Hstep.
  rewrite Hrun in Hstep.
  unfold after_loop, mbind, M_bind, get in Hstep. rewrite Hw in Hstep.
  unfold writer_release, modify in Hstep. fold s1 in Hstep.
  split.
  - intros Hempty. rewrite Hstep.
    unfold save_alerts_csv, mbind, M_bind, get.
    change (alerts_log s1) with (alerts_log s). rewrite Hempty. reflexivity.
  - intros Hne.
    destruct (save_alerts_csv_nonempty env s1 folder Hne Hfolder) as [D HD].
    exists D. rewrite Hstep, HD. reflexivity.
Qed.

(** The turn that finds the camera closed. *)
Lemma turn_open_failed env s tid :
  threads s !! tid = Some Spawned ->
  camera_at env (cam_opens s) = None ->
  step env s (Thread_turn tid) =
  set_threads (<[tid := Finished]> (threads s))
    (set_camera_running false
       (final (add_alert env "Camera failed to open" "info"
                 (set_cam_opens (S (cam_opens s)) s)))).
Proof.
  intros Ht Hcam. unfold step, perform, thread_turn. rewrite Ht.
  unfold camera_detection, camera_open, mbind, M_bind, get, modify.
  simpl. rewrite Hcam. reflexivity.
Qed.

(** ** Start and stop against the loop *)

Lemma step_start_idle env s :
  camera_running s = false ->
  step env s Get_start_camera =
  set_threads (threads s ++ [Spawned]) (set_camera_running true s).
Proof.
  intros H. unfold step, perform, start_camera, mbind, M_bind, get.
  now rewrite H.
Qed.

Lemma step_stop_running env s :
  camera_running s = true ->
  step env s Get_stop_camera = set_camera_running false s.
Proof.
  intros H. unfold step, perform, stop_camera, mbind, M_bind, get.
  now rewrite H.
Qed.

(** X2. A stop request ends a running loop at its next test of the flag,
    whatever frames the camera still has: the thread returns, the writer is
    released, no frame is published and no alert is recorded (in
    particular no "Frame read failed"); the ledger is written out if and
    only if it is not empty. *)
Theorem stop_ends_loop env s tid cap h folder :
  threads s !! tid = Some (Looping cap) ->
  camera_running s = true ->
  video_writer s = Some h ->
  session_folder s = Some folder ->
  let s' := run env s [Get_stop_camera; Thread_turn tid] in
  threads s' = <[tid := Finished]> (threads s) /\
  camera_running s' = false /\
  alerts_log s' = alerts_log s /\
  frame s' = frame s /\
  sinks s' = alter sink_release h (sinks s) /\
  (alerts_log s = [] -> csv_writes s' = csv_writes s) /\
  (alerts_log s <> [] ->
     exists path, csv_writes s' =
                  (csv_writes s ++ [(path, csv_of (alerts_log s))])%list).
Proof.
  intros Ht Hrun Hw Hfolder s'. subst s'. unfold run. simpl fold_left.
  rewrite (step_stop_running env s Hrun).
  set (s0 := set_camera_running false s).
  destruct (turn_stopped env s0 tid cap h folder Ht eq_refl Hw Hfolder)
    as [Hempty Hfull].
  destruct (alerts_log s) as [|a log] eqn:Hlog.
  - rewrite (Hempty Hlog). simpl. rewrite Hlog.
    repeat split; try reflexivity. intros H. now contradiction H.
  - assert (Hne : alerts_log s0 <> []) by (simpl; now rewrite Hlog).
    destruct (Hfull Hne) as [D ->]. simpl. rewrite Hlog.
    repeat split; try reflexivity; [discriminate | eauto].
Qed.

Lemma stop_ends_loop_witness :
  let s := run Demo.env3 init [Get_start_camera; Thread_turn 0; Thread_turn 0] in
  let s' := run Demo.env3 s [Get_stop_camera; Thread_turn 0] in
  threads s' = [Finished] /\ alerts_log s' = [] /\ csv_writes s' = [] /\
  map sink_open (sinks s') = [false].
Proof.
  destruct (stop_ends_loop Demo.env3
              (run Demo.env3 init [Get_start_camera; Thread_turn 0; Thread_turn 0])
              0 [Demo.quiet 2; Demo.quiet 3] 0 "sessions/20240309_120000"
              eq_refl eq_refl eq_refl eq_refl)
    as (H1 & _ & H3 & _ & H5 & H6 & _).
  cbv zeta. rewrite H1, H3, H5, (H6 eq_refl). repeat split.
Defined.

(** X3. The guard of [/start_camera] looks at the flag only.  When a stop
    request is followed by a start request before the old thread has
    tested the flag, the old thread finds the flag set again and goes on:
    its next turn is an ordinary pass that publishes a frame, while the
    newly started thread waits for its first turn. *)
Theorem restart_revives_loop env s tid c rest :
  threads s !! tid = Some (Looping (c :: rest)) ->
  camera_running s = false ->
  let s' := run env s [Get_start_camera; Thread_turn tid] in
  camera_running s' = true /\
  threads s' = <[tid := Looping rest]> (threads s ++ [Spawned])%list /\
  threads s' !! length (threads s) = Some Spawned /\
  exists img, frame s' = Some img.
Proof.
  intros Ht Hrun s'. subst s'. unfold run. simpl fold_left.
  rewrite (step_start_idle env s Hrun).
  set (s0 := set_threads (threads s ++ [Spawned]) (set_camera_running true s)).
  assert (Ht0 : threads s0 !! tid = Some (Looping (c :: rest)))
    by (simpl; now apply lookup_app_l_Some).
  destruct (turn_pass env s0 tid c rest Ht0 eq_refl) as (img & s1 & Hann & ->).
  destruct (annotate_backstage env c s0) as (Hr & _).
  rewrite Hann in Hr. simpl in Hr.
  assert (Hlt : tid < length (threads s)) by (eapply lookup_lt_Some; eauto).
  assert (Hframe : forall v, frame
            (set_threads v
               (match video_writer s0 with
                | Some h => set_sinks (alter (sink_write img) h (sinks s0))
                              (set_frame (Some img) s1)
                | None => set_frame (Some img) s1
                end)) = Some img)
    by (intros v; now destruct (video_writer s0)).
  assert (Hflag : forall v, camera_running
            (set_threads v
               (match video_writer s0 with
                | Some h => set_sinks (alter (sink_write img) h (sinks s0))
                              (set_frame (Some img) s1)
                | None => set_frame (Some img) s1
                end)) = true)
    by (intros v; destruct (video_writer s0); exact Hr).
  split; [apply Hflag|]. split; [reflexivity|]. split; [|eauto].
  simpl. rewrite list_lookup_insert_ne by lia. apply list_lookup_middle.
  reflexivity.
Qed.

Lemma restart_revives_loop_witness :
  let s := run Demo.env3 init [Get_start_camera; Thread_turn 0; Get_stop_camera] in
  threads (run Demo.env3 s [Get_start_camera; Thread_turn 0]) =
  [Looping [Demo.quiet 2; Demo.quiet 3]; Spawned].
Proof.
  destruct (restart_revives_loop Demo.env3
              (run Demo.env3 init [Get_start_camera; Thread_turn 0; Get_stop_camera])
              0 (Demo.quiet 1) [Demo.quiet 2; Demo.quiet 3] eq_refl eq_refl)
    as (_ & H & _).
  cbv zeta. rewrite H. reflexivity.
Defined.

(** X4. [camera_detection] does not look at the flag before it opens the
    camera.  A stop request that arrives before the new thread has run
    does not prevent the session: the thread still opens the camera,
    registers a session and creates its video writer, and only then leaves
    the loop without reading a frame.  The session has an empty, released
    video and no alert is recorded. *)
Theorem stop_before_open_leaves_empty_session env s cam :
  camera_running s = false ->
  camera_at env (cam_opens s) = Some cam ->
  let tid := length (threads s) in
  let s' := run env s [Get_start_camera; Get_stop_camera;
                       Thread_turn tid; Thread_turn tid] in
  let folder := path_join env "sessions"
                  (strftime_file (now_at env (clock_reads s))) in
  all_sessions s' = (all_sessions s ++ [folder])%list /\
  session_folder s' = Some folder /\
  sinks s' = (sinks s ++
              [{| sink_path := path_join env folder "recorded_video.mp4";
                  sink_size := (cam_width cam, cam_height cam);
                  sink_frames := []; sink_open := false |}])%list /\
  threads s' = (threads s ++ [Finished])%list /\
  alerts_log s' = alerts_log s /\
  camera_running s' = false /\
  frame s' = frame s.
Proof.
  intros Hrun Hcam tid s' folder. subst s'. unfold run. simpl fold_left.
  rewrite (step_start_idle env s Hrun).
  set (s1 := set_threads (threads s ++ [Spawned]) (set_camera_running true s)).
  rewrite (step_stop_running env s1 eq_refl).
  set (s2 := set_camera_running false s1).
  assert (Ht2 : threads s2 !! tid = Some Spawned)
    by (simpl; now apply list_lookup_middle).
  rewrite (turn_open env s2 tid cam Ht2 Hcam). cbv zeta.
  match goal with |- context [step env ?s0 _] => set (s3 := s0) end.
  assert (Ht3 : threads s3 !! tid = Some (Looping (cam_frames cam))).
  { simpl. apply list_lookup_insert_eq. rewrite length_app. simpl.
    unfold tid. lia. }
  destruct (turn_stopped env s3 tid (cam_frames cam) (length (sinks s)) folder
              Ht3 eq_refl eq_refl eq_refl) as [Hempty Hfull].
  assert (Hthreads : <[tid := Finished]> (threads s3) =
                     (threads s ++ [Finished])%list).
  { simpl. rewrite list_insert_insert_eq.
    unfold tid. rewrite insert_app_r_alt by lia.
    now rewrite Nat.sub_diag. }
  assert (Hsinks : alter sink_release (length (sinks s)) (sinks s3) =
                   (sinks s ++
                    [{| sink_path := path_join env folder "recorded_video.mp4";
                        sink_size := (cam_width cam, cam_height cam);
                        sink_frames := []; sink_open := false |}])%list).
  { simpl. rewrite alter_app_r_alt by lia. now rewrite Nat.sub_diag. }
  destruct (alerts_log s) as [|a log] eqn:Hlog.
  - rewrite (Hempty Hlog). simpl. rewrite Hlog.
    simpl in Hthreads, Hsinks. rewrite Hthreads, Hsinks. repeat split.
  - assert (Hne : alerts_log s3 <> []) by (simpl; now rewrite Hlog).
    destruct (Hfull Hne) as [D ->]. simpl. rewrite Hlog.
    simpl in Hthreads, Hsinks. rewrite Hthreads, Hsinks. repeat split.
Qed.

Lemma stop_before_open_leaves_empty_session_witness :
  let s' := run Demo.env3 init [Get_start_camera; Get_stop_camera;
                                Thread_turn 0; Thread_turn 0] in
  all_sessions s' = ["sessions/20240309_120000"] /\
  map sink_frames (sinks s') = [[]] /\ threads s' = [Finished] /\
  alerts_log s' = [].
Proof.
  destruct (stop_before_open_leaves_empty_session Demo.env3 init
              (Demo.webcam [Demo.quiet 1; Demo.quiet 2; Demo.quiet 3])
              eq_refl eq_refl)
    as (H1 & _ & H3 & H4 & H5 & _).
  cbv zeta. simpl length in *. rewrite H1, H3, H4, H5. repeat split.
Defined.

(** ** The folder of a running loop *)

Lemma after_loop_runs env s :
  session_folder s <> None -> exists s', after_loop env s = Ok tt s'.
Proof.
  intros Hfolder. unfold after_loop, mbind, M_bind, get, writer_release, modify.
  assert (Hsave : forall s0, session_folder s0 = session_folder s ->
                    exists s', save_alerts_csv env s0 = Ok tt s').
  { intros s0 H0. unfold save_alerts_csv, mbind, M_bind, get.
    destruct (alerts_log s0); [eauto|].
    rewrite H0. destruct (session_folder s) as [folder|]; [|contradiction].
    destruct (bool_decide (folder ∈ dirs s0)); eauto. }
  destruct (video_writer s); simpl; apply Hsave; reflexivity.
Qed.

(** With a session folder a turn of the loop returns, inside the loop or
    out of it, and leaves the thread table and the folder alone. *)
Lemma camera_turn_runs env cap s :
  session_folder s <> None ->
  exists t s',
    camera_turn env cap s = Ok t s' /\
    (t = Finished \/ exists rest, t = Looping rest) /\
    threads s' = threads s /\ session_folder s' = session_folder s.
Proof.
  intros Hfolder.
  assert (Hth : threads (final (camera_turn env cap s)) = threads s)
    by (revert s Hfolder; intros s _; revert s;
        same_part @kept_camera_turn threads).
  assert (Hsf : session_folder (final (camera_turn env cap s)) = session_folder s)
    by (revert s Hfolder Hth; intros s _ _; revert s;
        same_part @kept_camera_turn session_folder).
  assert (Hrun : exists t s', camera_turn env cap s = Ok t s' /\
                   (t = Finished \/ exists rest, t = Looping rest)).
  { unfold camera_turn, mbind at 1, M_bind at 1, get.
    destruct (camera_running s).
    - destruct cap as [|c rest].
      + unfold mbind at 1, M_bind at 1. rewrite add_alert_eq. cbv zeta.
        unfold mbind at 1, M_bind at 1.
        match goal with |- context [after_loop env ?s0] =>
          destruct (after_loop_runs env s0 Hfolder) as [s' ->] end.
        eauto.
      + unfold mbind at 1, M_bind at 1.
        assert (Hbody : never_raises (loop_body env c)).
        { unfold loop_body. apply nr_bind; [apply nr_annotate|]. intros img.
          apply nr_bind; [apply nr_modify|]. intros _.
          apply nr_bind; [apply nr_get|]. intros s0.
          destruct (video_writer s0); [apply nr_modify | apply nr_ret]. }
        destruct (Hbody s) as ([] & s' & ->).
        exists (Looping rest), s'. split; [reflexivity | right; eauto].
    - unfold mbind at 1, M_bind at 1.
      destruct (after_loop_runs env s Hfolder) as [s' ->]. eauto. }
  destruct Hrun as (t & s' & Hturn & Ht). rewrite Hturn in Hth, Hsf.
  exists t, s'. auto.
Qed.

(** What a turn of thread [tid] does to the thread table and the folder. *)
Lemma turn_outcome env s tid t :
  threads s !! tid = Some t ->
  ((exists cap, t = Looping cap) -> session_folder s <> None) ->
  (forall exn, t <> Crashed exn) ->
  exists t',
    threads (step env s (Thread_turn tid)) = <[tid := t']> (threads s) /\
    (forall exn, t' <> Crashed exn) /\
    ((exists cap, t' = Looping cap) ->
       session_folder (step env s (Thread_turn tid)) <> None) /\
    (session_folder s <> None ->
       session_folder (step env s (Thread_turn tid)) <> None).
Proof.
  intros Ht Hloop Hcrash. destruct t as [|cap| |exn].
  - destruct (camera_at env (cam_opens s)) as [cam|] eqn:Hcam.
    + rewrite (turn_open env s tid cam Ht Hcam). cbv zeta.
      exists (Looping (cam_frames cam)). simpl.
      repeat split; intros; discriminate.
    + rewrite (turn_open_failed env s tid Ht Hcam), add_alert_eq. cbv zeta.
      exists Finished. simpl.
      repeat split; try discriminate; [intros [cap H]; discriminate | auto].
  - assert (Hfolder : session_folder s <> None) by (apply Hloop; eauto).
    destruct (camera_turn_runs env cap s Hfolder)
      as (t' & s' & Hturn & Hshape & Hth & Hsf).
    exists t'. unfold step, perform, thread_turn. rewrite Ht.
    unfold camera_detection. rewrite Hturn. simpl. rewrite Hth, Hsf.
    repeat split; auto.
    destruct Hshape as [-> | [rest ->]]; discriminate.
  - exists Finished. unfold step, perform, thread_turn. rewrite Ht. simpl.
    repeat split; try discriminate; [intros [cap H]; discriminate | auto].
  - now contradiction (Hcrash exn).
Qed.

(** What a request or a direct call does to the thread table and the
    folder. *)
Lemma request_outcome env s a :
  (forall tid, a <> Thread_turn tid) ->
  session_folder (step env s a) = session_folder s /\
  (threads (step env s a) = threads s \/
   threads (step env s a) = (threads s ++ [Spawned])%list).
Proof.
  intros Hreq. unfold step.
  destruct a as [| | | | | | | |msg ty|tid]; simpl perform;
    try (split; [|left]; revert s;
         first [ same_part @kept_main session_folder
               | same_part @kept_main threads
               | same_part @kept_stop_camera session_folder
               | same_part @kept_stop_camera threads
               | same_part @kept_download_alerts session_folder
               | same_part @kept_download_alerts threads
               | same_part @kept_download_video session_folder
               | same_part @kept_download_video threads
               | intros s; unfold generate_frames, mbind, M_bind, get;
                 destruct (frame s); reflexivity
               | intros s; rewrite add_alert_eq; reflexivity
               | intros s; reflexivity ]).
  - unfold start_camera, mbind, M_bind, get.
    destruct (camera_running s); simpl; auto.
  - now contradiction (Hreq tid).
Qed.

Lemma healthy_request s s' :
  healthy s ->
  session_folder s' = session_folder s ->
  threads s' = threads s \/ threads s' = (threads s ++ [Spawned])%list ->
  healthy s'.
Proof.
  intros [Hcrash Hloop] Hsf [Hth|Hth]; split; rewrite ?Hsf, Hth; auto.
  - intros i exn H. apply lookup_snoc_Some in H as [[_ H]|[_ H]];
      [now apply (Hcrash i exn) | discriminate].
  - intros (i & cap & H). apply Hloop.
    apply lookup_snoc_Some in H as [[_ H]|[_ H]]; [eauto | discriminate].
Qed.

Lemma healthy_step env s a : healthy s -> healthy (step env s a).
Proof.
  intros Hs.
  assert (Hreq : (forall tid, a <> Thread_turn tid) -> healthy (step env s a)).
  { intros Ha. destruct (request_outcome env s a Ha) as [Hsf Hth].
    now apply (healthy_request s). }
  destruct a as [| | | | | | | |msg ty|tid]; try (apply Hreq; discriminate).
  clear Hreq. destruct Hs as [Hcrash Hloop].
  destruct (threads s !! tid) as [t|] eqn:Ht.
  - destruct (turn_outcome env s tid t Ht) as (t' & Hth & Ht' & Hnew & Hkeep).
    + intros [cap ->]. apply Hloop. eauto.
    + intros exn ->. now apply (Hcrash tid exn).
    + split.
      * intros i exn H. rewrite Hth in H.
        apply list_lookup_insert_Some in H as [(_ & H & _)|[_ H]].
        -- now apply (Ht' exn).
        -- now apply (Hcrash i exn).
      * intros (i & cap & H). rewrite Hth in H.
        apply list_lookup_insert_Some in H as [(_ & H & _)|[_ H]].
        -- apply Hnew. eauto.
        -- apply Hkeep, Hloop. eauto.
  - assert (Hsame : step env s (Thread_turn tid) = s)
      by (unfold step, perform, thread_turn; now rewrite Ht).
    rewrite Hsame. now split.
Qed.

(** X5. A detection thread inside the loop always has a session folder:
    [session_folder] is assigned before the loop is entered and nothing
    ever sets it back to [None].  So in every reachable state with a thread
    in the loop the folder is set, and [save_alerts_csv], called when the
    loop is left, never meets [session_folder = None]. *)
Theorem loop_has_session_folder env schedule tid cap :
  threads (run env init schedule) !! tid = Some (Looping cap) ->
  exists folder, session_folder (run env init schedule) = Some folder.
Proof.
  assert (H : forall s, healthy s -> healthy (run env s schedule)).
  { induction schedule as [|a rest IH]; intros s Hs; simpl; [exact Hs|].
    apply IH. now apply healthy_step. }
  assert (Hinit : healthy init).
  { split; [intros i exn H0; destruct i; discriminate|].
    intros (i & c & H0). destruct i; discriminate. }
  destruct (H init Hinit) as [_ Hloop].
  intros Ht.
  destruct (session_folder (run env init schedule)) as [folder|] eqn:Hf;
    [eauto|].
  exfalso. apply Hloop; eauto.
Qed.

Lemma loop_has_session_folder_witness :
  exists folder,
    session_folder (run Demo.env3 init
                      [Get_start_camera; Thread_turn 0; Thread_turn 0;
                       Get_stop_camera]) = Some folder.
Proof.
  exact (loop_has_session_folder Demo.env3
           [Get_start_camera; Thread_turn 0; Thread_turn 0; Get_stop_camera] 0
           [Demo.quiet 2; Demo.quiet 3] eq_refl).
Defined.

(** ** The colour test *)

Lemma mark_contours_spec contours f detected :
  mark_contours contours f detected =
  (detected || existsb large contours,
   {| pixels := pixels f;
      overlays := overlays f ++ map outline (List.filter large contours) |}).
Proof.
  revert f detected. induction contours as [|cnt rest IH]; intros f detected.
  - simpl. rewrite orb_false_r, app_nil_r. now destruct f.
  - cbn [mark_contours existsb List.filter]. fold (large cnt).
    destruct (large cnt).
    + destruct (contour_rect cnt) as [[[x y] w] h] eqn:Hrect.
      assert (Ho : outline cnt = Rect x y (x + w) (y + h) (0, 140, 255)%Z 2)
        by (unfold outline; now rewrite Hrect).
      rewrite IH. cbn [map]. rewrite Ho.
      simpl. rewrite orb_true_r, <- app_assoc. reflexivity.
    + now rewrite IH.
Qed.

(** X6. [detect_small_fire] reports a flame exactly when some contour of
    the colour mask has an area above 30, leaves the picture as it is, and
    draws on it one rectangle per such contour, in the order of the
    contours, after whatever was drawn before; contours of area 30 or less
    are neither reported nor outlined. *)
Theorem detect_small_fire_spec c f :
  let r := detect_small_fire c f in
  (r.1 = true <->
     exists cnt, cnt ∈ cap_contours c f /\ (30 < contour_area cnt)%Q) /\
  pixels r.2 = pixels f /\
  overlays r.2 =
    (overlays f ++ map outline (List.filter large (cap_contours c f)))%list /\
  (r.1 = false -> r.2 = f).
Proof.
  cbv zeta. unfold detect_small_fire. rewrite mark_contours_spec. simpl.
  split; [|split; [reflexivity|split; [reflexivity|]]].
  - rewrite existsb_exists. split.
    + intros (cnt & Hin & Hbig). exists cnt. split.
      * now apply list_elem_of_In.
      * now apply Qltb_lt.
    + intros (cnt & Hin & Hbig). exists cnt. split.
      * now apply list_elem_of_In.
      * now apply Qltb_lt.
  - intros Hnone.
    assert (Hfilter : List.filter large (cap_contours c f) = []).
    { induction (cap_contours c f) as [|cnt rest IH]; [reflexivity|].
      simpl in *. apply orb_false_iff in Hnone as [H1 H2].
      rewrite H1. now apply IH. }
    rewrite Hfilter. simpl. rewrite app_nil_r. now destruct f.
Qed.

Lemma detect_small_fire_spec_witness :
  let c := {| cap_raw := Demo.blank 1; cap_boxes := None;
              cap_plot := fun _ => None;
              cap_contours := fun _ =>
                [ {| contour_area := 30; contour_rect := (1, 1, 4, 4)%Z |};
                  {| contour_area := 30.5; contour_rect := (10, 20, 5, 6)%Z |} ] |} in
  detect_small_fire c (Demo.blank 1) =
  (true, {| pixels := 1;
            overlays := [Rect 10 20 15 26 (0, 140, 255)%Z 2] |}).
Proof.
  cbv zeta.
  match goal with |- detect_small_fire ?c ?f = _ =>
    destruct (detect_small_fire_spec c f) as (Hflag & Hpix & Hdrawn & _);
    destruct (detect_small_fire c f) as [flag img] eqn:Hrun
  end.
  simpl in *. destruct img as [px ov]. simpl in *. subst px ov.
  f_equal. apply Hflag.
  eexists. split; [apply list_elem_of_further, list_elem_of_here|].
  reflexivity.
Defined.

(** ** The export is faithful *)

Lemma csv_row_inj a b : csv_row a = csv_row b -> a = b.
Proof.
  destruct a as [i1 t1 m1 y1], b as [i2 t2 m2 y2]. unfold csv_row. simpl.
  intros [= Hid -> -> ->]. apply (inj pretty) in Hid. now subst.
Qed.

(** X7. The rows written for a ledger determine the ledger: two ledgers
    with the same export are the same ledger, entry by entry. *)
Theorem csv_of_inj log1 log2 : csv_of log1 = csv_of log2 -> log1 = log2.
Proof.
  unfold csv_of. intros [= H]. revert log2 H.
  induction log1 as [|a l1 IH]; intros [|b l2] H; simpl in H;
    try discriminate; [reflexivity|].
  assert (Hrow : csv_row a = csv_row b) by congruence.
  assert (Hrest : map csv_row l1 = map csv_row l2) by congruence.
  f_equal; [now apply csv_row_inj | now apply IH].
Qed.

Lemma csv_of_inj_witness :
  alerts_log (run Demo.env3 init [Run_main]) =
  [{| alert_id := 1; alert_time := "2024-03-09 12:00:00";
      alert_msg := "Smart Surveillance started"; alert_type := "info" |}].
Proof. apply csv_of_inj. vm_compute. reflexivity. Defined.

(** ** Requests that only read *)

Lemma set_clock_reads_same s : set_clock_reads (clock_reads s) s = s.
Proof. now destruct s. Qed.

Lemma read_only_step env s a :
  read_only a = true ->
  step env s a = s \/ step env s a = set_clock_reads (S (clock_reads s)) s.
Proof.
  unfold step.
  destruct a as [| | | | | | | |msg ty|tid]; try discriminate; intros _;
    simpl perform.
  - now left.
  - left. unfold generate_frames, mbind, M_bind, get. now destruct (frame s).
  - now left.
  - unfold download_alerts, mbind, M_bind, get.
    destruct (alerts_log s); [now left | now right].
  - unfold download_video, mbind, M_bind, get.
    destruct (session_folder s) as [folder|]; [|now left].
    destruct (video_exists _ s); [now right | now left].
Qed.

(** X8. Serving [/], [/video_feed], [/alerts], [/download_alerts] and
    [/download_video], in any number and order, changes nothing but the
    count of clock readings: the ledger, the preview frame, the sessions,
    the writers, the files, the flag and the threads are as before. *)
Theorem read_requests_change_nothing env schedule s :
  forallb read_only schedule = true ->
  exists n, (clock_reads s <= n)%nat /\
            run env s schedule = set_clock_reads n s.
Proof.
  revert s. induction schedule as [|a rest IH]; intros s Hall; simpl in *.
  - exists (clock_reads s). split; [lia|]. now rewrite set_clock_reads_same.
  - apply andb_true_iff in Hall as [Ha Hrest].
    destruct (read_only_step env s a Ha) as [-> | ->].
    + now apply IH.
    + destruct (IH (set_clock_reads (S (clock_reads s)) s) Hrest)
        as (n & Hn & ->).
      exists n. simpl in Hn. split; [lia | reflexivity].
Qed.

Lemma read_requests_change_nothing_witness :
  exists n,
    run Demo.env3 (run Demo.env3 init [Run_main])
      [Get_alerts; Get_download_alerts; Get_home; Get_download_video;
       Get_video_feed] =
    set_clock_reads n (run Demo.env3 init [Run_main]).
Proof.
  destruct (read_requests_change_nothing Demo.env3
              [Get_alerts; Get_download_alerts; Get_home; Get_download_video;
               Get_video_feed]
              (run Demo.env3 init [Run_main]) eq_refl) as (n & _ & H).
  exists n. exact H.
Defined.

(** ** Class identifiers the model has no name for *)

Lemma pretty_N_char_numeric x : numeric_char (pretty_N_char x) = true.
Proof. unfold pretty_N_char. repeat case_match; reflexivity. Qed.

Lemma pretty_N_go_numeric x s :
  (0 < x)%N -> numeric_head (pretty_N_go x s) = true.
Proof.
  revert s. induction (N.lt_wf_0 x) as [x _ IH]. intros s Hpos.
  rewrite pretty_N_go_step by exact Hpos.
  destruct (decide (x `div` 10 = 0)%N) as [Hzero|Hnz].
  - rewrite Hzero, pretty_N_go_0. simpl. apply pretty_N_char_numeric.
  - apply IH; [apply N.div_lt; lia | now apply N.neq_0_lt_0].
Qed.

Lemma pretty_Z_numeric (z : Z) : numeric_head (pretty z) = true.
Proof.
  destruct z as [|p|p]; [reflexivity| |reflexivity].
  unfold pretty, pretty_Z, pretty, pretty_positive, pretty, pretty_N.
  destruct (decide (N.pos p = 0)%N); [reflexivity|].
  apply pretty_N_go_numeric. lia.
Qed.

Lemma lower_numeric_head s :
  numeric_head s = true -> numeric_head (Str.lower s) = true.
Proof.
  destruct s as [|c rest]; [discriminate|]. simpl.
  unfold numeric_char, Str.lower_ascii. intros H.
  destruct ((65 <=? nat_of_ascii c) && (nat_of_ascii c <=? 90))%nat eqn:Hup;
    [|exact H].
  apply andb_true_iff in Hup as [H1 H2].
  apply Nat.leb_le in H1. apply Nat.leb_le in H2.
  apply orb_true_iff in H as [H|H].
  - apply andb_true_iff in H as [_ H]. apply Nat.leb_le in H. lia.
  - apply Nat.eqb_eq in H. lia.
Qed.

Lemma restricted_not_numeric name :
  name ∈ ALERT_CLASSES -> numeric_head name = false.
Proof.
  unfold ALERT_CLASSES. rewrite !elem_of_union, !elem_of_singleton.
  intros H. repeat (destruct H as [H | ->]; [|reflexivity]).
  now subst.
Qed.

(** X9. A detection whose class identifier is missing from the model's
    name table is given the decimal notation of the identifier as its
    label; such a label is never a restricted class, so the detection
    raises no alert and changes nothing, however confident it is. *)
Theorem unnamed_class_never_alerts env f cls conf s :
  names env !! cls = None ->
  class_name env cls = Str.lower (pretty cls) /\
  (class_name env cls ∉ ALERT_CLASSES) /\
  on_detection env f (cls, conf) s = Ok f s.
Proof.
  intros Hmiss.
  assert (Hname : class_name env cls = Str.lower (pretty cls))
    by (unfold class_name; now rewrite Hmiss).
  assert (Hout : class_name env cls ∉ ALERT_CLASSES).
  { intros Hin. apply restricted_not_numeric in Hin.
    rewrite Hname, lower_numeric_head in Hin; [discriminate|].
    apply pretty_Z_numeric. }
  split; [exact Hname|]. split; [exact Hout|].
  rewrite on_detection_eq. cbv zeta.
  rewrite (bool_decide_eq_false_2 _ Hout).
  now destruct (Qltb conf CONF_THRESH).
Qed.

Lemma unnamed_class_never_alerts_witness :
  on_detection (Demo.env_knife GeoNotOk) (Demo.blank 1) (7%Z, 1%Q) init =
  Ok (Demo.blank 1) init.
Proof.
  apply (unnamed_class_never_alerts (Demo.env_knife GeoNotOk) (Demo.blank 1)
           7 1 init).
  reflexivity.
Defined.

(** ** One alert, one sound, one lookup *)

Lemma tally_refl s : tally 0 s s.
Proof.
  exists []. rewrite app_nil_r, !Nat.add_0_r. repeat split.
Qed.

Lemma tally_trans n m s1 s2 s3 :
  tally n s1 s2 -> tally m s2 s3 -> tally (n + m) s1 s3.
Proof.
  intros (new1 & L1 & C1 & B1 & G1) (new2 & L2 & C2 & B2 & G2).
  exists (new1 ++ new2)%list. rewrite L2, L1, B2, B1, G2, G1.
  rewrite List.filter_app, length_app, C1, C2, app_assoc.
  repeat split; lia.
Qed.

Lemma info_not_detection extra :
  Forall (fun g => alert_type g = "info") extra ->
  List.filter is_detection_alert extra = [].
Proof.
  induction 1 as [|g rest Hg _ IH]; [reflexivity|].
  simpl. unfold is_detection_alert. rewrite Hg. exact IH.
Qed.

(** The position lookup after an alert: one call of the geocoder, no
    sound, and at most one alert, of type "info". *)
Lemma gps_annotate_counts env f s :
  let s' := final (gps_annotate env f s) in
  (exists extra, alerts_log s' = (alerts_log s ++ extra)%list /\
                 Forall (fun g => alert_type g = "info") extra) /\
  beeps s' = beeps s /\ geo_calls s' = S (geo_calls s).
Proof.
  cbv zeta. split; [apply gps_annotate_log|].
  rewrite gps_annotate_eq. cbv zeta.
  destruct (geo_at env (geo_calls s)) as [| |lat lon]; try (split; reflexivity).
  destruct (gps_differs (lat, lon)); split; reflexivity.
Qed.

Lemma on_detection_tally env f det s :
  tally (if flagged env det then 1 else 0) s (final (on_detection env f det s)).
Proof.
  destruct det as [cls conf]. rewrite on_detection_eq. cbv zeta.
  unfold flagged. simpl fst. simpl snd.
  destruct (Qltb conf CONF_THRESH); [apply tally_refl|].
  destruct (bool_decide (class_name env cls ∈ ALERT_CLASSES));
    [|apply tally_refl].
  simpl negb. simpl andb.
  match goal with |- context [gps_annotate env f ?s0] =>
    destruct (gps_annotate_counts env f s0) as ((extra & Hlog & Hinfo) & Hb & Hg)
  end.
  eexists (_ :: extra). rewrite Hlog, Hb, Hg. simpl.
  rewrite <- app_assoc. split; [reflexivity|].
  rewrite (info_not_detection extra Hinfo).
  destruct (alert_type_of_cases (class_name env cls)) as [-> | ->];
    repeat split; simpl; lia.
Qed.

(** X10. Over the detections of one frame, every detection that passes the
    test (confidence at least 0.35, restricted label) accounts for exactly
    one "fire" or "weapon" alert, one sound and one position lookup, and
    the others for none: the counts of detection alerts added, of sounds
    started and of lookups made all equal the number of detections that
    pass. *)
Theorem detections_tally env boxes f s :
  tally (length (List.filter (flagged env) boxes)) s
    (final (foldM (on_detection env) boxes f s)).
Proof.
  revert f s. induction boxes as [|det rest IH]; intros f s.
  - apply tally_refl.
  - change (foldM (on_detection env) (det :: rest) f s)
      with (match on_detection env f det s with
            | Ok f' s' => foldM (on_detection env) rest f' s'
            | Raised exn s' => Raised exn s'
            end).
    pose proof (on_detection_tally env f det s) as Hone.
    destruct (nr_on_detection env f det s) as (f' & s' & Hrun).
    rewrite Hrun in *. simpl in Hone.
    cbn [List.filter]. destruct (flagged env det); simpl length.
    + apply (tally_trans 1 _ s s'); [exact Hone | apply IH].
    + apply (tally_trans 0 _ s s'); [exact Hone | apply IH].
Qed.

(** X11. The colour test raises its own alert.  On a frame where the model
    flags nothing and the colour test reports a flame, the pass records
    "Small flame/matchstick detected" with type "fire", numbered with the
    next identifier, starts one sound, and records after it at most the
    "info" alert carrying the position. *)
Theorem small_fire_alert env c s :
  (forall boxes, cap_boxes c = Some boxes ->
     Forall (fun det => flagged env det = false) boxes) ->
  (detect_small_fire c (cap_raw c)).1 = true ->
  let s' := final (annotate env c s) in
  exists rest,
    added s s' =
      {| alert_id := _next_alert_id s;
         alert_time := strftime_alert (now_at env (clock_reads s));
         alert_msg := "Small flame/matchstick detected";
         alert_type := "fire" |} :: rest /\
    Forall (fun g => alert_type g = "info") rest /\
    beeps s' = S (beeps s).
Proof.
  intros Hboxes Hfire. cbv zeta.
  assert (Hfold : match cap_boxes c with
                  | Some boxes => foldM (on_detection env) boxes (cap_raw c)
                  | None => mret (cap_raw c)
                  end s = Ok (cap_raw c) s).
  { destruct (cap_boxes c) as [boxes|]; [|reflexivity].
    apply foldM_unflagged. now apply Hboxes. }
  assert (Hann : exists img s2 extra,
            annotate env c s = Ok img s2 /\
            alerts_log s2 =
              ((alerts_log s ++
                [{| alert_id := _next_alert_id s;
                    alert_time := strftime_alert (now_at env (clock_reads s));
                    alert_msg := "Small flame/matchstick detected";
                    alert_type := "fire" |}]) ++ extra)%list /\
            Forall (fun g => alert_type g = "info") extra /\
            beeps s2 = S (beeps s)).
  { unfold annotate, mbind at 1, M_bind at 1. rewrite Hfold.
    destruct (detect_small_fire c (cap_raw c)) as [detected f1].
    simpl in Hfire. subst detected.
    unfold mbind at 1, M_bind at 1. unfold mbind at 1, M_bind at 1.
    rewrite add_alert_eq. cbv zeta. unfold mbind at 1, M_bind at 1.
    unfold beep at 1, modify at 1.
    match goal with |- context [gps_annotate env f1 ?s0] =>
      destruct (gps_annotate_counts env f1 s0)
        as ((extra & Hlog & Hinfo) & Hb & _);
      destruct (nr_gps_annotate env f1 s0) as (f2 & s2 & Hrun)
    end.
    rewrite Hrun in *. simpl in Hlog, Hb. simpl.
    do 3 eexists. split; [reflexivity|]. eauto. }
  destruct Hann as (img & s2 & extra & -> & Hlog & Hinfo & Hb). simpl.
  exists extra. split; [|split; [exact Hinfo | exact Hb]].
  unfold added. rewrite Hlog, <- app_assoc, drop_app_length. reflexivity.
Qed.

Lemma small_fire_alert_witness :
  let c := {| cap_raw := Demo.blank 1; cap_boxes := Some [(0%Z, 0.99%Q)];
              cap_plot := fun _ => None;
              cap_contours := fun _ =>
                [ {| contour_area := 31; contour_rect := (1, 1, 4, 4)%Z |} ] |} in
  length (alerts_log (final (annotate Demo.env3 c init))) = 1%nat.
Proof.
  cbv zeta.
  match goal with |- context [annotate Demo.env3 ?c init] =>
    destruct (small_fire_alert Demo.env3 c init) as (rest & Hadd & _)
  end.
  - intros boxes [= <-]. repeat constructor.
  - reflexivity.
  - vm_compute. reflexivity.
Defined.

(** ** The types found in the ledger *)

Lemma known_types_step env s a :
  (forall msg ty, a = Call_add_alert msg ty -> known_type ty) ->
  Forall (fun e => known_type (alert_type e)) (alerts_log s) ->
  Forall (fun e => known_type (alert_type e)) (alerts_log (step env s a)).
Proof.
  intros Hty.
  assert (Hcase : (forall tid, a = Thread_turn tid ->
                     threads s !! tid = Some Spawned ->
                     camera_at env (cam_opens s) = None) \/
                  exists tid cam, a = Thread_turn tid /\
                     threads s !! tid = Some Spawned /\
                     camera_at env (cam_opens s) = Some cam).
  { destruct a as [| | | | | | | |msg ty|tid]; try (left; discriminate).
    destruct (camera_at env (cam_opens s)) as [cam|] eqn:Hcam;
      [|left; reflexivity].
    destruct (threads s !! tid) as [[| | |]|] eqn:Ht;
      try (left; intros ? [= <-]; congruence).
    right. eauto. }
  destruct Hcase as [Hno|(tid & cam & -> & Ht & Hcam)].
  - revert Hty Hno.
    apply (walk_step
             (fun s s' => Forall (fun e => known_type (alert_type e)) (alerts_log s) ->
                          Forall (fun e => known_type (alert_type e)) (alerts_log s'))
             known_type); unfold known_type; auto.
    + intros s0 s' -> _ _ _ _ _ _ _. auto.
    + intros s0 e He _ Hall. simpl. apply Forall_app. split; [exact Hall|].
      now constructor.
  - now rewrite (turn_open env s tid cam Ht Hcam).
Qed.

(** X12. The script records alerts of three types only.  As long as direct
    callers of [add_alert] keep to "info", "fire" and "weapon", so does
    every entry of the ledger, whatever the camera, the model and the
    geocoder answer. *)
Theorem ledger_types env schedule :
  (forall msg ty, Call_add_alert msg ty ∈ schedule -> known_type ty) ->
  Forall (fun e => known_type (alert_type e))
    (alerts_log (run env init schedule)).
Proof.
  assert (H : forall s,
            (forall msg ty, Call_add_alert msg ty ∈ schedule -> known_type ty) ->
            Forall (fun e => known_type (alert_type e)) (alerts_log s) ->
            Forall (fun e => known_type (alert_type e))
              (alerts_log (run env s schedule))).
  { induction schedule as [|a rest IH]; intros s Hcalls Hs; simpl; [exact Hs|].
    apply IH.
    - intros msg ty Hin. apply (Hcalls msg ty). now apply list_elem_of_further.
    - apply known_types_step; [|exact Hs].
      intros msg ty ->. apply (Hcalls msg ty). apply list_elem_of_here. }
  intros Hcalls. apply H; [exact Hcalls | constructor].
Qed.

Lemma ledger_types_witness :
  Forall (fun e => known_type (alert_type e))
    (alerts_log (run (Demo.env_knife (GeoOk 48.8566 2.3522)) init
                   [Run_main; Get_start_camera; Thread_turn 0; Thread_turn 0;
                    Thread_turn 0; Thread_turn 0])).
Proof.
  apply ledger_types. intros msg ty Hin.
  apply list_elem_of_In in Hin. simpl in Hin.
  repeat (destruct Hin as [Hin|Hin]; [discriminate Hin|]). contradiction.
Defined.

(** ** The preview and the recording *)

Lemma alter_as_insert {A} (g : A -> A) (l : list A) h k :
  l !! h = Some k -> alter g h l = <[h := g k]> l.
Proof.
  revert h. induction l as [|x l IH]; intros [|h] H; simpl in *;
    try discriminate.
  - now injection H as ->.
  - f_equal. now apply IH.
Qed.

(** X14. While the current writer is open, a pass of the loop shows and
    records the same picture: the frame put in the preview is the frame
    produced by this pass, it is appended to the current writer after the
    frames already written, and no other writer is touched. *)
Theorem pass_records_what_it_shows env s tid c rest h k :
  threads s !! tid = Some (Looping (c :: rest)) ->
  camera_running s = true ->
  video_writer s = Some h ->
  sinks s !! h = Some k ->
  sink_open k = true ->
  let s' := step env s (Thread_turn tid) in
  exists img,
    value (annotate env c s) = Some img /\
    frame s' = Some img /\
    sinks s' = <[h := {| sink_path := sink_path k; sink_size := sink_size k;
                         sink_frames := sink_frames k ++ [img];
                         sink_open := true |}]> (sinks s) /\
    threads s' = <[tid := Looping rest]> (threads s).
Proof.
  intros Ht Hrun Hw Hk Hopen. cbv zeta.
  destruct (turn_pass env s tid c rest Ht Hrun) as (img & s1 & Hann & ->).
  exists img. rewrite Hann, Hw. simpl.
  repeat split. rewrite (alter_as_insert _ _ _ _ Hk).
  unfold sink_write. now rewrite Hopen.
Qed.

Lemma pass_records_what_it_shows_witness :
  exists img,
    frame (step Demo.env3 (run Demo.env3 init [Get_start_camera; Thread_turn 0])
             (Thread_turn 0)) = Some img /\
    map sink_frames
      (sinks (step Demo.env3 (run Demo.env3 init [Get_start_camera; Thread_turn 0])
                (Thread_turn 0))) = [[img]].
Proof.
  destruct (pass_records_what_it_shows Demo.env3
              (run Demo.env3 init [Get_start_camera; Thread_turn 0]) 0
              (Demo.quiet 1) [Demo.quiet 2; Demo.quiet 3] 0
              {| sink_path := "sessions/20240309_120000/recorded_video.mp4";
                 sink_size := (640, 480)%Z; sink_frames := [];
                 sink_open := true |}
              eq_refl eq_refl eq_refl eq_refl eq_refl)
    as (img & _ & Hframe & Hsinks & _).
  exists img. split; [exact Hframe|]. rewrite Hsinks. reflexivity.
Defined.

(** ** The list of sessions *)

(** A step is either a successful opening of the camera or not. *)
Lemma opening_or_not env s a :
  (forall tid, a = Thread_turn tid -> threads s !! tid = Some Spawned ->
     camera_at env (cam_opens s) = None) \/
  exists tid cam, a = Thread_turn tid /\ threads s !! tid = Some Spawned /\
                  camera_at env (cam_opens s) = Some cam.
Proof.
  destruct a as [| | | | | | | |msg ty|tid]; try (left; discriminate).
  destruct (camera_at env (cam_opens s)) as [cam|] eqn:Hcam;
    [|left; reflexivity].
  destruct (threads s !! tid) as [[| | |]|] eqn:Ht;
    try (left; intros ? [= <-]; congruence).
  right. eauto.
Qed.

Lemma sessions_grow_step env s a :
  all_sessions s `prefix_of` all_sessions (step env s a) /\
  map sink_path (sinks s) `prefix_of` map sink_path (sinks (step env s a)).
Proof.
  destruct (opening_or_not env s a) as [Hno|(tid & cam & -> & Ht & Hcam)].
  - destruct (stable_step env s a Hno) as (_ & -> & _ & -> & _).
    split; reflexivity.
  - rewrite (turn_open env s tid cam Ht Hcam). cbv zeta. simpl.
    rewrite map_app. split; now apply prefix_app_r.
Qed.

(** X15. Sessions are only ever added: along any run, from any state, the
    list of sessions shown on the overview page keeps the sessions it had,
    in their order, and so does the list of video files that writers were
    created on; no request and no thread removes or reorders one. *)
Theorem sessions_only_grow env s schedule :
  let s' := run env s schedule in
  all_sessions s `prefix_of` all_sessions s' /\
  map sink_path (sinks s) `prefix_of` map sink_path (sinks s') /\
  home s' = Ok (Page (all_sessions s')) s'.
Proof.
  cbv zeta. split; [|split; [|reflexivity]]; revert s;
    induction schedule as [|a rest IH]; intros s; simpl;
    try reflexivity.
  - transitivity (all_sessions (step env s a));
      [apply sessions_grow_step | apply IH].
  - transitivity (map sink_path (sinks (step env s a)));
      [apply sessions_grow_step | apply IH].
Qed.
